(** * RPC calculator: the servicers of [server.py]

    A shallow embedding of the request handlers of the gRPC demo server
    ([CalculatorServicer] and [StatsServicer]) together with the properties
    its specification states about them.

    Python's [int] is unbounded, so integers are [Z]; [//] and [%] are floor
    division and its remainder, which is what [Z.div] and [Z.modulo] are.
    The messages are protobuf messages: an integer field has one of
    protobuf's integer types, none wider than 64 bits, and the constructor of
    a message raises [ValueError] on a value outside the range of the field.
    Which type each field has is written in the service's .proto file, which
    is not among the sources: the types of the reply fields are a parameter
    ([pb.Schema]) of everything below.

    A handler runs against the console it logs to and ends in one of three
    ways: it returns a reply, it calls [ctx.abort] (which raises and so never
    returns), or an exception of Python escapes from it.

    Printing a log line is an event carrying the colour, the method name and
    the message; [_parse_peer] only formats the caller's address for that
    line and is total on the peers of a TCP listener ("ipv4:host:port",
    "ipv6:[host]:port"), so the handlers do not thread it; it is modelled on
    its own further down, with the interactive client's [ask_int]. *)

From Stdlib Require Import ZArith Ascii String List Lia Bool.
From Stdlib Require Import QArith Qround Qfield DecimalString Factorial.
From Stdlib Require Import Floats.
Import ListNotations.

Open Scope string_scope.
Open Scope Z_scope.

(** ** Python values and exceptions *)

Inductive PyException : Type :=
| ZeroDivisionError
| TypeError
| ValueError
| OverflowError
| StatisticsError.

(** What an arithmetic expression over [int] may evaluate to: [pow] leaves the
    integers when its exponent is negative.  The value of such a float is
    kept as the exact rational it approximates. *)
Inductive PyNumber : Type :=
| PyInt (z : Z)
| PyFloat (q : Q).

(** [str(z)], as used by the f-strings of the log messages. *)
Definition str (z : Z) : string := NilZero.string_of_int (Z.to_int z).

(** [pow(base, exponent)] on two [int]s.  With a non-negative exponent the
    result is the exact integer power.  With a negative one Python computes in
    floating point: zero to a negative power raises, anything else is a float
    (never an [int], not even for a base of 1 or -1). *)
Definition pow (base exponent : Z) : PyException + PyNumber :=
  if 0 <=? exponent then inr (PyInt (base ^ exponent))
  else if base =? 0 then inl ZeroDivisionError
  else inr (PyFloat (Qpower (inject_Z base) exponent)).

(** ** gRPC status codes, console and the handler monad *)

Module grpc.
Inductive StatusCode : Type :=
| OK
| UNKNOWN
| INVALID_ARGUMENT
| DEADLINE_EXCEEDED
| UNAVAILABLE.
End grpc.
Import grpc.

Inductive Colour : Type := BLUE | GREEN | RED.

(** One line printed by [log_req] or [log_rep].  The time stamp and the two
    addresses of the printed line are left out: they come from the clock and
    from [ctx.peer()] and no handler reads them back. *)
Record LogLine : Type := mkLogLine {
  colour : Colour;
  method : string;
  msg : string
}.

Inductive Event : Type :=
| Printed (l : LogLine)
| Slept (ms : Z).

Inductive Outcome (A : Type) : Type :=
| Returned (a : A)
| Aborted (code : StatusCode) (details : string)
| Raised (e : PyException).
Arguments Returned {A} a.
Arguments Aborted {A} code details.
Arguments Raised {A} e.

(** A handler threads the list of events it has caused so far, oldest
    first. *)
Definition Handler (A : Type) : Type := list Event -> Outcome A * list Event.

Definition ret {A} (a : A) : Handler A := fun w => (Returned a, w).

Definition bind {A B} (m : Handler A) (k : A -> Handler B) : Handler B :=
  fun w =>
    match m w with
    | (Returned a, w') => k a w'
    | (Aborted c d, w') => (Aborted c d, w')
    | (Raised e, w') => (Raised e, w')
    end.

Declare Scope handler_scope.
Delimit Scope handler_scope with handler.
Notation "x <- m ;; k" := (bind m (fun x => k))
  (at level 61, m at next level, right associativity) : handler_scope.
Notation "m ;; k" := (bind m (fun _ => k))
  (at level 61, right associativity) : handler_scope.
Open Scope handler_scope.

Definition emit (e : Event) : Handler unit :=
  fun w => (Returned tt, (w ++ [e])%list).

Definition log_req (method msg : string) : Handler unit :=
  emit (Printed (mkLogLine BLUE method msg)).

Definition log_rep (method msg : string) (ok : bool) : Handler unit :=
  emit (Printed (mkLogLine (if ok then GREEN else RED) method msg)).

(** [ctx.abort(code, details)] raises: nothing after it runs. *)
Definition abort {A} (code : StatusCode) (details : string) : Handler A :=
  fun w => (Aborted code details, w).

Definition raise {A} (e : PyException) : Handler A := fun w => (Raised e, w).

Definition lift {A} (r : PyException + A) : Handler A :=
  match r with
  | inl e => raise e
  | inr a => ret a
  end.

(** [if c: body] where the statements after it still run when [c] is false. *)
Definition when (c : bool) (body : Handler unit) : Handler unit :=
  if c then body else ret tt.

(** [time.sleep(s)], in milliseconds. *)
Definition sleep (ms : Z) : Handler unit := emit (Slept ms).

(** ** Messages of [calculator_pb2] *)

Module pb.

(** The integer types a protobuf field can have. *)
Inductive IntType : Type :=
| int32 | int64 | uint32 | uint64 | sint32 | sint64
| fixed32 | fixed64 | sfixed32 | sfixed64.

Definition bits (ty : IntType) : Z :=
  match ty with
  | int32 | uint32 | sint32 | fixed32 | sfixed32 => 32
  | int64 | uint64 | sint64 | fixed64 | sfixed64 => 64
  end.

Definition signed (ty : IntType) : bool :=
  match ty with
  | uint32 | uint64 | fixed32 | fixed64 => false
  | _ => true
  end.

Definition int_min (ty : IntType) : Z :=
  if signed ty then - 2 ^ (bits ty - 1) else 0.

Definition int_max (ty : IntType) : Z :=
  if signed ty then 2 ^ (bits ty - 1) - 1 else 2 ^ bits ty - 1.

(** The range check protobuf makes when a Python [int] is stored in a field
    of type [ty]. *)
Definition fits (ty : IntType) (z : Z) : bool :=
  (int_min ty <=? z) && (z <=? int_max ty).

(** Modelled from the spec: the message types are generated from the
    service's .proto file, which is not among the sources.  The
    specification's data model gives the fields and says of each that it is
    an integer; the integer type of each field the handlers write is left
    open, as a parameter. *)
Record Schema : Type := mkSchema {
  result_type : IntType;
  quotient_type : IntType;
  remainder_type : IntType;
  step_type : IntType;
  accumulator_type : IntType
}.

(** The schema that declares every integer field with the one type [ty]. *)
Definition uniform (ty : IntType) : Schema := mkSchema ty ty ty ty ty.

(** Modelled from the spec: see [Schema].  A request reaches the handler
    already built. *)
Record BinaryRequest : Type := mkBinaryRequest { x : Z; y : Z }.

(** Modelled from the spec: see [Schema]. *)
Record BinaryReply : Type := mkBinaryReply { result : Z }.

(** Modelled from the spec: see [Schema]. *)
Record PowerRequest : Type := mkPowerRequest { base : Z; exponent : Z }.

(** Modelled from the spec: see [Schema]. *)
Record DivideReply : Type := mkDivideReply { quotient : Z; remainder : Z }.

(** Modelled from the spec: see [Schema]. *)
Record UnaryRequest : Type := mkUnaryRequest { n : Z }.

(** Modelled from the spec: see [Schema]. *)
Record FactorialStep : Type := mkFactorialStep { step : Z; accumulator : Z }.

(** Modelled from the spec: see [Schema]; the samples and the statistics are
    Python floats, binary64. *)
Record SampleValue : Type := mkSampleValue { v : float }.

(** Modelled from the spec: see [SampleValue]. *)
Record StatsReply : Type := mkStatsReply { mean : float; variance : float }.

Section constructors.

Variable schema : Schema.

(** Modelled from the spec: [pb.BinaryReply(result=value)], the constructor
    protobuf generates for the message.  An integer field refuses a float
    with a [TypeError] and an [int] outside its range with a
    [ValueError]. *)
Definition BinaryReply_new (value : PyNumber) : Handler BinaryReply :=
  match value with
  | PyInt z =>
      if fits (result_type schema) z then ret (mkBinaryReply z)
      else raise ValueError
  | PyFloat _ => raise TypeError
  end.

(** Modelled from the spec: [pb.DivideReply(quotient=q, remainder=r)]; see
    [BinaryReply_new]. *)
Definition DivideReply_new (q r : Z) : Handler DivideReply :=
  if fits (quotient_type schema) q && fits (remainder_type schema) r
  then ret (mkDivideReply q r)
  else raise ValueError.

(** Modelled from the spec: [pb.FactorialStep(step=k, accumulator=acc)]; see
    [BinaryReply_new]. *)
Definition FactorialStep_new (k acc : Z) : Handler FactorialStep :=
  if fits (step_type schema) k && fits (accumulator_type schema) acc
  then ret (mkFactorialStep k acc)
  else raise ValueError.

End constructors.

End pb.

(** ** Calculator service *)

Module CalculatorServicer.

(** [Factorial] is a generator function: calling it runs nothing and gives a
    generator, which is either not started yet, parked at the [yield] of
    iteration [k] with the running product [acc], or finished. *)
Inductive FactorialGen : Type :=
| Created (req : pb.UnaryRequest)
| Suspended (n k acc : Z)
| Finished.

Section handlers.

Variable schema : pb.Schema.

(** *** Unary RPCs *)

Definition Add (req : pb.BinaryRequest) : Handler pb.BinaryReply :=
  log_req "Add" (str (pb.x req) ++ " + " ++ str (pb.y req)) ;;
  res <- pb.BinaryReply_new schema (PyInt (pb.x req + pb.y req)) ;;
  log_rep "Add" ("= " ++ str (pb.result res)) true ;;
  ret res.

Definition Subtract (req : pb.BinaryRequest) : Handler pb.BinaryReply :=
  log_req "Subtract" (str (pb.x req) ++ " - " ++ str (pb.y req)) ;;
  res <- pb.BinaryReply_new schema (PyInt (pb.x req - pb.y req)) ;;
  log_rep "Subtract" ("= " ++ str (pb.result res)) true ;;
  ret res.

Definition Multiply (req : pb.BinaryRequest) : Handler pb.BinaryReply :=
  log_req "Multiply" (str (pb.x req) ++ " * " ++ str (pb.y req)) ;;
  res <- pb.BinaryReply_new schema (PyInt (pb.x req * pb.y req)) ;;
  log_rep "Multiply" ("= " ++ str (pb.result res)) true ;;
  ret res.

Definition Power (req : pb.PowerRequest) : Handler pb.BinaryReply :=
  log_req "Power" (str (pb.base req) ++ "^" ++ str (pb.exponent req)) ;;
  value <- lift (pow (pb.base req) (pb.exponent req)) ;;
  res <- pb.BinaryReply_new schema value ;;
  log_rep "Power" ("= " ++ str (pb.result res)) true ;;
  ret res.

Definition Divide (req : pb.BinaryRequest) : Handler pb.DivideReply :=
  log_req "Divide" (str (pb.x req) ++ " / " ++ str (pb.y req)) ;;
  when (pb.y req =? 0)
    (log_rep "Divide" "ERROR: div by 0" false ;;
     abort INVALID_ARGUMENT "Division by zero is not allowed") ;;
  res <- pb.DivideReply_new schema
           (pb.x req / pb.y req) (pb.x req mod pb.y req) ;;
  log_rep "Divide"
    ("q=" ++ str (pb.quotient res) ++ " r=" ++ str (pb.remainder res)) true ;;
  ret res.

(** *** Server-streaming RPC *)

Definition Factorial (req : pb.UnaryRequest) : FactorialGen := Created req.

(** One turn of [for k in range(0, n + 1)], entered with the next index [k]:
    either the range is exhausted and the generator returns, or the body runs
    up to its [yield]. *)
Definition Factorial_loop (n k acc : Z)
  : Handler (option pb.FactorialStep * FactorialGen) :=
  if k <? n + 1 then
    let acc := if k =? 0 then 1 else acc * k in
    step <- pb.FactorialStep_new schema k acc ;;
    log_rep "Factorial" (str k ++ "! = " ++ str acc) true ;;
    ret (Some step, Suspended n k acc)
  else ret (None, Finished).

(** [next(gen)]: run the generator to its next [yield].  [None] is
    [StopIteration]. *)
Definition next (gen : FactorialGen)
  : Handler (option pb.FactorialStep * FactorialGen) :=
  match gen with
  | Created req =>
      let n := pb.n req in
      log_req "Factorial" ("n=" ++ str n) ;;
      when (n <? 0)
        (log_rep "Factorial" "ERROR: negative" false ;;
         abort INVALID_ARGUMENT "Negative factorial is undefined") ;;
      Factorial_loop n 0 1
  | Suspended n k acc =>
      sleep 50 ;;
      Factorial_loop n (k + 1) acc
  | Finished => ret (None, Finished)
  end.

End handlers.

End CalculatorServicer.

(** ** The side of the gRPC runtime that serves a response stream *)

(** How a call ended, as the caller sees it. *)
Inductive Termination : Type :=
| Completed
| Failed (code : StatusCode) (details : string)
| Crashed (e : PyException).

(** The runtime pulls the elements of the generator one at a time and sends
    each to the caller before it asks for the next; [sent] holds those
    delivered so far.  [fuel] bounds the number of pulls, [None] means it ran
    out. *)
Fixpoint serve_stream (schema : pb.Schema) (fuel : nat)
    (gen : CalculatorServicer.FactorialGen)
    (sent : list pb.FactorialStep) (w : list Event)
  : option (list pb.FactorialStep * Termination * list Event) :=
  match fuel with
  | O => None
  | S fuel' =>
      match CalculatorServicer.next schema gen w with
      | (Returned (Some s, gen'), w') =>
          serve_stream schema fuel' gen' (sent ++ [s])%list w'
      | (Returned (None, _), w') => Some (sent, Completed, w')
      | (Aborted c d, w') => Some (sent, Failed c d, w')
      | (Raised e, w') => Some (sent, Crashed e, w')
      end
  end.

(** The same for a unary or client-streaming call: one reply or none. *)
Definition serve_unary {A} (h : Handler A) (w : list Event)
  : option A * Termination * list Event :=
  match h w with
  | (Returned a, w') => (Some a, Completed, w')
  | (Aborted c d, w') => (None, Failed c d, w')
  | (Raised e, w') => (None, Crashed e, w')
  end.

(** ** The [statistics] module of the Python library *)

Module statistics.

(** [_exact_ratio(x)]: the exact value of a finite float, as a fraction;
    [None] for an infinity or a NaN. *)
Definition exact_ratio (x : float) : option Q :=
  match Prim2SF x with
  | S754_zero _ => Some 0%Q
  | S754_finite s m e =>
      Some (inject_Z (if s then Z.neg m else Z.pos m) * Qpower 2 e)%Q
  | _ => None
  end.

Fixpoint exact_ratios (data : list float) : option (list Q) :=
  match data with
  | [] => Some []
  | x :: rest =>
      match exact_ratio x, exact_ratios rest with
      | Some q, Some qs => Some (q :: qs)
      | _, _ => None
      end
  end.

Definition Z2SF (z : Z) : spec_float :=
  match z with
  | Z0 => S754_zero false
  | Zpos p => S754_finite false p 0
  | Zneg p => S754_finite true p 0
  end.

(** [float(q)] for a [Fraction]: the true division of its numerator by its
    denominator, in lowest terms, rounded to the nearest double, ties to
    even; [OverflowError] when that is beyond the largest double. *)
Definition float_of_Fraction (q : Q) : PyException + float :=
  let q := Qred q in
  match SFdiv prec emax (Z2SF (Qnum q)) (Z2SF (Zpos (Qden q))) with
  | S754_infinity _ => inl OverflowError
  | r => inr (SF2Prim r)
  end.

(** [float(n)] for an [int]. *)
Definition float_of_int (n : Z) : float :=
  SF2Prim (binary_normalize prec emax n 0 false).

Definition Qsum (qs : list Q) : Q := fold_right Qplus 0%Q qs.

(** The total the library keeps apart for the samples that are no finite
    numbers: their sum in float arithmetic, in the order of the data. *)
Definition special_total (data : list float) : float :=
  fold_left
    (fun t x => match exact_ratio x with None => (t + x)%float | Some _ => t end)
    data 0%float.

(** [statistics.mean(data)] on floats: the samples are summed exactly, as
    fractions, the sum is divided by their number and the quotient is rounded
    once.  An infinity or a NaN among them makes the result the float
    quotient of their float sum. *)
Definition mean (data : list float) : PyException + float :=
  let n := Z.of_nat (length data) in
  if n <? 1 then inl StatisticsError
  else match exact_ratios data with
       | Some qs => float_of_Fraction (Qsum qs / inject_Z n)
       | None => inr (special_total data / float_of_int n)%float
       end.

(** [statistics.variance(data)] on floats, as Python 3.11 and later compute
    it: the sum and the sum of squares are exact fractions, the sum of the
    squared deviations is [(n * sxx - sx * sx) / n], and its quotient by
    [n - 1] is rounded once. *)
Definition variance (data : list float) : PyException + float :=
  let n := Z.of_nat (length data) in
  if n <? 2 then inl StatisticsError
  else match exact_ratios data with
       | Some qs =>
           let sx := Qsum qs in
           let sxx := Qsum (map (fun q => q * q)%Q qs) in
           float_of_Fraction
             ((inject_Z n * sxx - sx * sx) / inject_Z n / inject_Z (n - 1))
       | None => inr (special_total data / float_of_int (n - 1))%float
       end.

End statistics.

(** ** Stats service *)

Module StatsServicer.

Section DescriptiveStats.

(** [statistics.mean] and [statistics.variance] of the Python library, on a
    list of floats: a float, or the exception they raise. *)
Variables st_mean st_variance : list float -> PyException + float.

(** The two float formats of the log messages, [f"{v}"] and [f"{v:.3f}"]. *)
Variables float_str float_3f : float -> string.

(** [for val in req_iter: vals.append(val.v); log_req(...)] *)
Fixpoint collect (req_iter : list pb.SampleValue) (vals : list float)
  : Handler (list float) :=
  match req_iter with
  | [] => ret vals
  | val :: rest =>
      let vals := (vals ++ [pb.v val])%list in
      log_req "Stats/Value" (float_str (pb.v val)) ;;
      collect rest vals
  end.

Definition DescriptiveStats (req_iter : list pb.SampleValue)
  : Handler pb.StatsReply :=
  vals <- collect req_iter [] ;;
  when (match vals with [] => true | _ => false end)
    (log_rep "Stats/Reply" "ERROR: no data" false ;;
     abort INVALID_ARGUMENT "No values supplied") ;;
  mean <- lift (st_mean vals) ;;
  var <- (if (1 <? Z.of_nat (length vals))
          then lift (st_variance vals) else ret 0%float) ;;
  let res := pb.mkStatsReply mean var in
  log_rep "Stats/Reply"
    ("mean=" ++ float_3f mean ++ " var=" ++ float_3f var) true ;;
  ret res.

End DescriptiveStats.

End StatsServicer.

(** ** Reference definitions the properties are stated against *)

(** The power as the product of [e] copies of [b]. *)
Fixpoint repeated_product (b : Z) (e : nat) : Z :=
  match e with
  | O => 1
  | S e' => b * repeated_product b e'
  end.

(** The pair division truncated towards zero gives, moved to the floor. *)
Definition floor_of_truncation (x y : Z) : Z * Z :=
  if (Z.rem x y =? 0) || (Z.sgn x =? Z.sgn y)
  then (Z.quot x y, Z.rem x y)
  else (Z.quot x y - 1, Z.rem x y + y).

(** The factorial, computed in [Z]. *)
Fixpoint Zfact (k : nat) : Z :=
  match k with
  | O => 1
  | S k' => Zfact k' * Z.of_nat k
  end.

(** The element the stream owes at step [k]. *)
Definition factorial_step (k : nat) : pb.FactorialStep :=
  pb.mkFactorialStep (Z.of_nat k) (Zfact k).

(** The elements for the [count] steps from [lo] on. *)
Definition factorial_steps (lo count : nat) : list pb.FactorialStep :=
  map factorial_step (seq lo count).

(** The accumulator of the element at position [k] of a stream. *)
Definition accumulator_at (steps : list pb.FactorialStep) (k : Z) : Z :=
  nth (Z.to_nat k) (map pb.accumulator steps) 0.

(** Whether the element of step [k] can be built: its two fields are within
    the range of their types. *)
Definition step_fits (schema : pb.Schema) (k : nat) : bool :=
  pb.fits (pb.step_type schema) (Z.of_nat k)
  && pb.fits (pb.accumulator_type schema) (Zfact k).

(** How many of the [count] steps from [lo] on can be built before one
    cannot. *)
Fixpoint fitting_prefix (schema : pb.Schema) (lo count : nat) : nat :=
  match count with
  | O => O
  | S count' =>
      if step_fits schema lo then S (fitting_prefix schema (S lo) count')
      else O
  end.

(** The arithmetic mean of rationals. *)
Definition Qmean (qs : list Q) : Q :=
  (statistics.Qsum qs / inject_Z (Z.of_nat (length qs)))%Q.

(** The sample variance of rationals: the squared deviations from the mean,
    summed and divided by their number less one. *)
Definition Qvariance (qs : list Q) : Q :=
  (statistics.Qsum (map (fun q => (q - Qmean qs) * (q - Qmean qs)) qs)
   / inject_Z (Z.of_nat (length qs) - 1))%Q.

(** Two samples of opposite sign near the largest double, 1e308 and -1e308:
    their mean is 0 and their sample variance, 2e616, is beyond every
    double. *)
Definition overflowing_samples : list pb.SampleValue :=
  [pb.mkSampleValue 0x1.1ccf385ebc8ap+1023%float;
   pb.mkSampleValue (- 0x1.1ccf385ebc8ap+1023)%float].

(** The samples of the specification's example, 2, 4, 4, 4, 5, 5, 7, 9. *)
Definition example_samples : list pb.SampleValue :=
  [pb.mkSampleValue 2; pb.mkSampleValue 4; pb.mkSampleValue 4;
   pb.mkSampleValue 4; pb.mkSampleValue 5; pb.mkSampleValue 5;
   pb.mkSampleValue 7; pb.mkSampleValue 9]%float.

(** ** What a trace shows *)

(** The lines printed, in order. *)
Fixpoint printed (w : list Event) : list LogLine :=
  match w with
  | [] => []
  | Printed l :: w' => l :: printed w'
  | Slept _ :: w' => printed w'
  end.

(** The time spent in [time.sleep], in milliseconds. *)
Fixpoint slept_ms (w : list Event) : Z :=
  match w with
  | [] => 0
  | Printed _ :: w' => slept_ms w'
  | Slept ms :: w' => ms + slept_ms w'
  end.

(** The colours of the lines a unary call prints, by how it ends: the request
    in blue, then the reply in green or the refusal in red; an exception cuts
    the handler short of any second line. *)
Definition colours_for {A} (o : Outcome A) : list Colour :=
  match o with
  | Returned _ => [BLUE; GREEN]
  | Aborted _ _ => [BLUE; RED]
  | Raised _ => [BLUE]
  end.

(** What holds of a generator made for [n] wherever it is parked: the index
    is within [0..n] and the accumulator is the factorial of the index. *)
Definition gen_invariant (n : Z) (gen : CalculatorServicer.FactorialGen) : Prop :=
  match gen with
  | CalculatorServicer.Created req => pb.n req = n
  | CalculatorServicer.Suspended n' k acc =>
      n' = n /\ 0 <= k <= n /\ acc = Zfact (Z.to_nat k)
  | CalculatorServicer.Finished => True
  end.

(** ** The caller's address *)

(** [c in chars] *)
Fixpoint mem (c : Ascii.ascii) (chars : string) : bool :=
  match chars with
  | EmptyString => false
  | String a chars' => Ascii.eqb c a || mem c chars'
  end.

(** [s.lstrip(chars)] *)
Fixpoint lstrip (chars s : string) : string :=
  match s with
  | EmptyString => EmptyString
  | String a s' => if mem a chars then lstrip chars s' else s
  end.

(** [s.rstrip(chars)] *)
Fixpoint rstrip (chars s : string) : string :=
  match s with
  | EmptyString => EmptyString
  | String a s' =>
      match rstrip chars s' with
      | EmptyString => if mem a chars then EmptyString else String a EmptyString
      | r => String a r
      end
  end.

(** [s.strip(chars)] *)
Definition strip (chars s : string) : string := rstrip chars (lstrip chars s).

(** [s.split(sep, 1)] for a one-character separator: the two sides of the
    first [sep], or [None] when [s] has none (the list then has one
    element). *)
Fixpoint split_first (sep : Ascii.ascii) (s : string) : option (string * string) :=
  match s with
  | EmptyString => None
  | String a s' =>
      if Ascii.eqb a sep then Some (EmptyString, s')
      else match split_first sep s' with
           | Some (l, r) => Some (String a l, r)
           | None => None
           end
  end.

(** [s.rsplit(sep, 1)] for a one-character separator: the two sides of the
    last [sep], or [None] when [s] has none. *)
Fixpoint split_last (sep : Ascii.ascii) (s : string) : option (string * string) :=
  match s with
  | EmptyString => None
  | String a s' =>
      match split_last sep s' with
      | Some (l, r) => Some (String a l, r)
      | None => if Ascii.eqb a sep then Some (EmptyString, s') else None
      end
  end.

(** [peer.startswith(("ipv4:", "ipv6:"))] *)
Definition has_scheme (peer : string) : bool :=
  String.prefix "ipv4:" peer || String.prefix "ipv6:" peer.

(** [_parse_peer(peer)]: the pair [(ip, port)], or [None] when Python raises:
    unpacking [ip, port = peer.rsplit(":", 1)] is a [ValueError] when the
    string has no colon left.  (Element 1 of the first split always exists,
    the scheme brings its colon.) *)
Definition _parse_peer (peer : string) : option (string * string) :=
  let peer' :=
    if has_scheme peer
    then match split_first ":"%char peer with
         | Some (_, rest) => Some rest
         | None => None
         end
    else Some peer in
  match peer' with
  | None => None
  | Some peer =>
      match split_last ":"%char peer with
      | Some (ip, port) => Some (strip "[]" ip, port)
      | None => None
      end
  end.

(** [":" not in s] *)
Definition no_colon (s : string) : Prop := mem ":"%char s = false.

(** ** The interactive client: [ask_int] *)

Module client.

(** The deadline the client gives every call, in seconds. *)
Definition TIMEOUT_SEC : Z := 2.

Section ask_int.

(** [int(s)] of Python on a line of input; [None] is its [ValueError]. *)
Variable int : string -> option Z.

(** [ask_int(prompt)] against the lines the user will type.  Each turn of the
    loop prints the prompt and takes a line; a line [int] refuses is answered
    with a complaint and the loop goes on.  The result is the integer read
    ([None] is the [EOFError] of [input] when the lines run out, which the
    function does not catch), the lines not yet read, and what was
    printed. *)
Fixpoint ask_int (prompt : string) (stdin : list string) (stdout : list string)
  : option Z * list string * list string :=
  match stdin with
  | [] => (None, [], (stdout ++ [prompt])%list)
  | line :: rest =>
      match int line with
      | Some z => (Some z, rest, (stdout ++ [prompt])%list)
      | None =>
          ask_int prompt rest
            (stdout ++ [prompt; "  Please enter a valid integer."])%list
      end
  end.

End ask_int.

End client.

(** A reader that knows two numerals, standing in for Python's [int] where a
    run of [ask_int] is shown on concrete input. *)
Definition example_int (line : string) : option Z :=
  if String.eqb line "7" then Some 7
  else if String.eqb line "42" then Some 42
  else None.


(** * Properties *)

Import CalculatorServicer.

(** Unfolds the monadic plumbing of a handler and nothing of the arithmetic or
    of the message texts. *)
Ltac run_handler :=
  cbv [serve_unary Add Subtract Multiply Power Divide next Factorial_loop
       pb.BinaryReply_new pb.DivideReply_new pb.FactorialStep_new
       bind ret when lift abort raise sleep emit log_req log_rep fst snd].

(** ** The handler monad *)

Lemma bind_ret_l {A B} (a : A) (k : A -> Handler B) (w : list Event) :
  bind (ret a) k w = k a w.
Proof. reflexivity. Qed.

Lemma bind_ret_r {A} (m : Handler A) (w : list Event) :
  bind m ret w = m w.
Proof. unfold bind, ret. destruct (m w) as [[a | c d | e] w']; reflexivity. Qed.

Lemma bind_assoc {A B C} (m : Handler A) (k : A -> Handler B)
    (k' : B -> Handler C) (w : list Event) :
  bind (bind m k) k' w = bind m (fun a => bind (k a) k') w.
Proof. unfold bind. destruct (m w) as [[a | c d | e] w']; reflexivity. Qed.

(** Nothing runs after an abort: the rest of the handler is skipped and the
    console stays as the abort found it. *)
Lemma bind_abort {A B} (code : StatusCode) (details : string)
    (k : A -> Handler B) (w : list Event) :
  bind (abort code details) k w = (Aborted code details, w).
Proof. reflexivity. Qed.

(** ** The ranges of protobuf's integer types *)

Lemma fits_spec (ty : pb.IntType) (z : Z) :
  pb.fits ty z = true <-> pb.int_min ty <= z <= pb.int_max ty.
Proof.
  unfold pb.fits. rewrite andb_true_iff, !Z.leb_le. tauto.
Qed.

(** Every type holds 0 and 1 and none holds 2^64. *)
Lemma range_bounds (ty : pb.IntType) :
  pb.int_min ty <= 0 /\ 1 <= pb.int_max ty /\ pb.int_max ty < 2 ^ 64.
Proof.
  destruct ty; vm_compute; repeat split; discriminate.
Qed.

Lemma fits_0 (ty : pb.IntType) : pb.fits ty 0 = true.
Proof. apply fits_spec. pose proof (range_bounds ty). lia. Qed.

Lemma fits_1 (ty : pb.IntType) : pb.fits ty 1 = true.
Proof. apply fits_spec. pose proof (range_bounds ty). lia. Qed.

Lemma fits_below (ty : pb.IntType) (z z' : Z) :
  0 <= z' <= z -> pb.fits ty z = true -> pb.fits ty z' = true.
Proof.
  rewrite !fits_spec. pose proof (range_bounds ty). lia.
Qed.

Lemma fits_too_big (ty : pb.IntType) (z : Z) :
  2 ^ 64 <= z -> pb.fits ty z = false.
Proof.
  intros Hz. destruct (pb.fits ty z) eqn:E; [ | reflexivity].
  apply fits_spec in E. pose proof (range_bounds ty). lia.
Qed.

(** ** Add, Subtract, Multiply *)

Example Add_2_3 :
  serve_unary (Add (pb.uniform pb.int32) (pb.mkBinaryRequest 2 3)) []
  = (Some (pb.mkBinaryReply 5), Completed,
     [Printed (mkLogLine BLUE "Add" "2 + 3");
      Printed (mkLogLine GREEN "Add" "= 5")]).
Proof. reflexivity. Qed.

Example Subtract_2_3 :
  serve_unary (Subtract (pb.uniform pb.int32) (pb.mkBinaryRequest 2 3)) []
  = (Some (pb.mkBinaryReply (-1)), Completed,
     [Printed (mkLogLine BLUE "Subtract" "2 - 3");
      Printed (mkLogLine GREEN "Subtract" "= -1")]).
Proof. reflexivity. Qed.

(** The three handlers differ by the operator and the method name only: this
    is what each does, for its operator [op] applied to the operands. *)
Lemma Add_run (schema : pb.Schema) (x y : Z) (w : list Event) :
  Add schema (pb.mkBinaryRequest x y) w
  = if pb.fits (pb.result_type schema) (x + y)
    then (Returned (pb.mkBinaryReply (x + y)),
          (w ++ [Printed (mkLogLine BLUE "Add" (str x ++ " + " ++ str y));
                 Printed (mkLogLine GREEN "Add" ("= " ++ str (x + y)))])%list)
    else (Raised ValueError,
          (w ++ [Printed (mkLogLine BLUE "Add" (str x ++ " + " ++ str y))])%list).
Proof.
  run_handler. cbn [pb.x pb.y].
  destruct (pb.fits (pb.result_type schema) (x + y)); cbn [pb.result];
    rewrite <- ?app_assoc; reflexivity.
Qed.

Lemma Subtract_run (schema : pb.Schema) (x y : Z) (w : list Event) :
  Subtract schema (pb.mkBinaryRequest x y) w
  = if pb.fits (pb.result_type schema) (x - y)
    then (Returned (pb.mkBinaryReply (x - y)),
          (w ++ [Printed (mkLogLine BLUE "Subtract" (str x ++ " - " ++ str y));
                 Printed (mkLogLine GREEN "Subtract" ("= " ++ str (x - y)))])%list)
    else (Raised ValueError,
          (w ++ [Printed (mkLogLine BLUE "Subtract"
                            (str x ++ " - " ++ str y))])%list).
Proof.
  run_handler. cbn [pb.x pb.y].
  destruct (pb.fits (pb.result_type schema) (x - y)); cbn [pb.result];
    rewrite <- ?app_assoc; reflexivity.
Qed.

Lemma Multiply_run (schema : pb.Schema) (x y : Z) (w : list Event) :
  Multiply schema (pb.mkBinaryRequest x y) w
  = if pb.fits (pb.result_type schema) (x * y)
    then (Returned (pb.mkBinaryReply (x * y)),
          (w ++ [Printed (mkLogLine BLUE "Multiply" (str x ++ " * " ++ str y));
                 Printed (mkLogLine GREEN "Multiply" ("= " ++ str (x * y)))])%list)
    else (Raised ValueError,
          (w ++ [Printed (mkLogLine BLUE "Multiply"
                            (str x ++ " * " ++ str y))])%list).
Proof.
  run_handler. cbn [pb.x pb.y].
  destruct (pb.fits (pb.result_type schema) (x * y)); cbn [pb.result];
    rewrite <- ?app_assoc; reflexivity.
Qed.

(** C8 as the specification words it fails: no protobuf integer type holds
    every integer.  With 64-bit signed fields the request Add(2^63 - 1, 1) is
    well formed and its sum is not: the reply constructor raises and the call
    ends without a reply.  And whatever the types of the fields, the sum of
    2^64 and 0 is beyond the result field. *)
Lemma Add_overflow_counterexample :
  pb.fits pb.int64 (2 ^ 63 - 1) = true /\ pb.fits pb.int64 1 = true /\
  serve_unary (Add (pb.uniform pb.int64) (pb.mkBinaryRequest (2 ^ 63 - 1) 1)) []
  = (None, Crashed ValueError,
     [Printed (mkLogLine BLUE "Add" "9223372036854775807 + 1")]) /\
  ~ exists schema,
      forall x y, exists w',
        serve_unary (Add schema (pb.mkBinaryRequest x y)) []
        = (Some (pb.mkBinaryReply (x + y)), Completed, w').
Proof.
  split; [reflexivity | split; [reflexivity | split; [reflexivity | ] ] ].
  intros [schema H]. destruct (H (2 ^ 64) 0) as [w' E].
  unfold serve_unary in E. rewrite Add_run in E.
  rewrite fits_too_big in E by lia. discriminate.
Qed.

(** C8, amended: for all integers x and y, Add returns x+y, Subtract returns
    x-y and Multiply returns x*y whenever that value is within the range of
    the reply's result field; when it is not, the reply cannot be built and
    the call ends in the [ValueError] of its constructor, without a reply.
    None of the three has another way to fail. *)
Theorem Add_Subtract_Multiply_result (schema : pb.Schema) (x y : Z)
    (w : list Event) :
  let req := pb.mkBinaryRequest x y in
  let fits := pb.fits (pb.result_type schema) in
  (exists w',
      serve_unary (Add schema req) w
      = if fits (x + y) then (Some (pb.mkBinaryReply (x + y)), Completed, w')
        else (None, Crashed ValueError, w')) /\
  (exists w',
      serve_unary (Subtract schema req) w
      = if fits (x - y) then (Some (pb.mkBinaryReply (x - y)), Completed, w')
        else (None, Crashed ValueError, w')) /\
  (exists w',
      serve_unary (Multiply schema req) w
      = if fits (x * y) then (Some (pb.mkBinaryReply (x * y)), Completed, w')
        else (None, Crashed ValueError, w')).
Proof.
  intros req fits. subst req fits. unfold serve_unary.
  rewrite Add_run, Subtract_run, Multiply_run.
  split; [ | split ].
  - destruct (pb.fits (pb.result_type schema) (x + y)); eexists; reflexivity.
  - destruct (pb.fits (pb.result_type schema) (x - y)); eexists; reflexivity.
  - destruct (pb.fits (pb.result_type schema) (x * y)); eexists; reflexivity.
Qed.

(** ** Divide *)

(** What [Divide] does with a non-zero divisor: the request line, then the
    reply built from [//] and [%] and its line, or the [ValueError] of the
    reply's constructor when one of the two is outside its field. *)
Lemma Divide_nonzero (schema : pb.Schema) (x y : Z) (w : list Event) :
  y <> 0 ->
  Divide schema (pb.mkBinaryRequest x y) w
  = if pb.fits (pb.quotient_type schema) (x / y)
       && pb.fits (pb.remainder_type schema) (x mod y)
    then (Returned (pb.mkDivideReply (x / y) (x mod y)),
          (w ++ [Printed (mkLogLine BLUE "Divide" (str x ++ " / " ++ str y));
                 Printed (mkLogLine GREEN "Divide"
                            ("q=" ++ str (x / y) ++ " r=" ++ str (x mod y)))])%list)
    else (Raised ValueError,
          (w ++ [Printed (mkLogLine BLUE "Divide"
                            (str x ++ " / " ++ str y))])%list).
Proof.
  intros Hy. run_handler. cbn [pb.x pb.y].
  apply Z.eqb_neq in Hy. rewrite Hy.
  destruct (pb.fits (pb.quotient_type schema) (x / y)
            && pb.fits (pb.remainder_type schema) (x mod y));
    cbn [pb.quotient pb.remainder]; rewrite <- ?app_assoc; reflexivity.
Qed.

(** What [Divide] does with a zero divisor: the request line, the error line,
    then the abort. *)
Lemma Divide_zero (schema : pb.Schema) (x : Z) (w : list Event) :
  Divide schema (pb.mkBinaryRequest x 0) w
  = (Aborted INVALID_ARGUMENT "Division by zero is not allowed",
     (w ++ [Printed (mkLogLine BLUE "Divide" (str x ++ " / " ++ str 0))]
        ++ [Printed (mkLogLine RED "Divide" "ERROR: div by 0")])%list).
Proof.
  run_handler. cbn [pb.x pb.y Z.eqb]. rewrite <- app_assoc. reflexivity.
Qed.

Example Divide_m7_2 :
  serve_unary (Divide (pb.uniform pb.int32) (pb.mkBinaryRequest (-7) 2)) []
  = (Some (pb.mkDivideReply (-4) 1), Completed,
     [Printed (mkLogLine BLUE "Divide" "-7 / 2");
      Printed (mkLogLine GREEN "Divide" "q=-4 r=1")]).
Proof. reflexivity. Qed.

Example Divide_7_m2 :
  fst (Divide (pb.uniform pb.int32) (pb.mkBinaryRequest 7 (-2)) [])
  = Returned (pb.mkDivideReply (-4) (-1)).
Proof. reflexivity. Qed.

Example Divide_1_0 :
  serve_unary (Divide (pb.uniform pb.int32) (pb.mkBinaryRequest 1 0)) []
  = (None, Failed INVALID_ARGUMENT "Division by zero is not allowed",
     [Printed (mkLogLine BLUE "Divide" "1 / 0");
      Printed (mkLogLine RED "Divide" "ERROR: div by 0")]).
Proof. reflexivity. Qed.

(** The remainder of floor division is zero or has the sign of the divisor. *)
Lemma floor_mod_sign (x y : Z) :
  y <> 0 -> x mod y = 0 \/ Z.sgn (x mod y) = Z.sgn y.
Proof.
  intros Hy.
  destruct (Z.lt_total y 0) as [Hneg | [H0 | Hpos]]; [ | contradiction | ].
  - pose proof (Z.mod_neg_bound x y Hneg). lia.
  - pose proof (Z.mod_pos_bound x y Hpos). lia.
Qed.

Lemma floor_mod_range (x y : Z) :
  y <> 0 -> 0 <= x mod y < y \/ y < x mod y <= 0.
Proof.
  intros Hy.
  destruct (Z.lt_total y 0) as [Hneg | [H0 | Hpos]]; [ | contradiction | ].
  - right. apply Z.mod_neg_bound. assumption.
  - left. apply Z.mod_pos_bound. assumption.
Qed.

(** A reply of [Divide] is the pair of [//] and [%]. *)
Lemma Divide_returned (schema : pb.Schema) (x y q r : Z) (w w' : list Event) :
  y <> 0 ->
  Divide schema (pb.mkBinaryRequest x y) w
  = (Returned (pb.mkDivideReply q r), w') ->
  q = x / y /\ r = x mod y.
Proof.
  intros Hy E. rewrite (Divide_nonzero schema x y w Hy) in E.
  destruct (pb.fits (pb.quotient_type schema) (x / y)
            && pb.fits (pb.remainder_type schema) (x mod y));
    [ | discriminate].
  injection E as <- <- _. split; reflexivity.
Qed.

(** C2 as the specification words it fails: Divide does not succeed for every
    pair with y <> 0.  With 64-bit signed fields the request
    Divide(-2^63, -1) is well formed and its quotient 2^63 is not: the reply
    constructor raises and the call ends without a reply.  And whatever the
    types of the fields, the quotient of 2^64 by 1 is beyond the quotient
    field. *)
Lemma Divide_overflow_counterexample :
  pb.fits pb.int64 (- 2 ^ 63) = true /\ pb.fits pb.int64 (-1) = true /\
  serve_unary (Divide (pb.uniform pb.int64)
                 (pb.mkBinaryRequest (- 2 ^ 63) (-1))) []
  = (None, Crashed ValueError,
     [Printed (mkLogLine BLUE "Divide" "-9223372036854775808 / -1")]) /\
  ~ exists schema,
      forall x y, y <> 0 ->
        exists q r w',
          serve_unary (Divide schema (pb.mkBinaryRequest x y)) []
          = (Some (pb.mkDivideReply q r), Completed, w').
Proof.
  split; [reflexivity | split; [reflexivity | split; [reflexivity | ] ] ].
  intros [schema H]. destruct (H (2 ^ 64) 1) as [q [r [w' E]]]; [lia | ].
  unfold serve_unary in E. rewrite Divide_nonzero in E by lia.
  rewrite Z.div_1_r, fits_too_big in E by lia. discriminate.
Qed.

(** C2, amended: for all integers x and y with y <> 0 whose floor quotient and
    remainder are within the ranges of the reply's two fields, Divide
    succeeds with a quotient and a remainder such that
    quotient*y + remainder = x; the quotient is the floor of the rational x/y
    and the remainder is zero or has the sign of the divisor, as floor
    division has it. *)
Theorem Divide_quotient_remainder (schema : pb.Schema) (x y : Z)
    (w : list Event) (Hy : y <> 0)
    (Hq : pb.fits (pb.quotient_type schema) (x / y) = true)
    (Hr : pb.fits (pb.remainder_type schema) (x mod y) = true) :
  exists q r w',
    serve_unary (Divide schema (pb.mkBinaryRequest x y)) w
    = (Some (pb.mkDivideReply q r), Completed, w') /\
    q * y + r = x /\
    q = Qfloor (inject_Z x / inject_Z y) /\
    (r = 0 \/ Z.sgn r = Z.sgn y).
Proof.
  exists (x / y), (x mod y). eexists. unfold serve_unary.
  rewrite (Divide_nonzero schema x y w Hy), Hq, Hr. cbn [andb].
  split; [reflexivity | ].
  split; [ | split ].
  - pose proof (Z.div_mod x y Hy). lia.
  - apply Zdiv_Qdiv.
  - apply floor_mod_sign; assumption.
Qed.

Lemma Divide_quotient_remainder_witness :
  (-7) / 2 = -4 /\ (-7) mod 2 = 1 /\
  exists q r w',
    serve_unary (Divide (pb.uniform pb.int64) (pb.mkBinaryRequest (-7) 2)) []
    = (Some (pb.mkDivideReply q r), Completed, w') /\
    q * 2 + r = -7 /\
    q = Qfloor (inject_Z (-7) / inject_Z 2) /\
    (r = 0 \/ Z.sgn r = Z.sgn 2).
Proof.
  split; [reflexivity | split; [reflexivity | ] ].
  apply (Divide_quotient_remainder (pb.uniform pb.int64) (-7) 2 []);
    [lia | reflexivity | reflexivity].
Defined.

(** C10: for all integers x and y with y <> 0, the remainder Divide returns is
    bounded by the divisor: 0 <= remainder < y when y > 0 and
    y < remainder <= 0 when y < 0; so it is zero or of the sign of y, and
    smaller than y in magnitude.  Divide does return, with the pair of [//]
    and [%], as soon as the two are within the ranges of the reply's
    fields. *)
Theorem Divide_remainder_bound (schema : pb.Schema) (x y : Z) (w : list Event)
    (Hy : y <> 0) :
  (pb.fits (pb.quotient_type schema) (x / y) = true ->
   pb.fits (pb.remainder_type schema) (x mod y) = true ->
   exists w',
     Divide schema (pb.mkBinaryRequest x y) w
     = (Returned (pb.mkDivideReply (x / y) (x mod y)), w')) /\
  forall q r w',
    Divide schema (pb.mkBinaryRequest x y) w
    = (Returned (pb.mkDivideReply q r), w') ->
    (0 < y -> 0 <= r < y) /\
    (y < 0 -> y < r <= 0) /\
    (r = 0 \/ Z.sgn r = Z.sgn y) /\
    Z.abs r < Z.abs y.
Proof.
  split.
  - intros Hq Hr. rewrite (Divide_nonzero schema x y w Hy), Hq, Hr.
    eexists. reflexivity.
  - intros q r w' E.
    destruct (Divide_returned schema x y q r w w' Hy E) as [_ ->].
    pose proof (floor_mod_range x y Hy) as Hrange.
    pose proof (floor_mod_sign x y Hy) as Hsign.
    repeat split; lia.
Qed.

Lemma Divide_remainder_bound_witness :
  (pb.fits pb.int64 (7 / -2) = true ->
   pb.fits pb.int64 (7 mod -2) = true ->
   exists w',
     Divide (pb.uniform pb.int64) (pb.mkBinaryRequest 7 (-2)) []
     = (Returned (pb.mkDivideReply (7 / -2) (7 mod -2)), w')) /\
  forall q r w',
    Divide (pb.uniform pb.int64) (pb.mkBinaryRequest 7 (-2)) []
    = (Returned (pb.mkDivideReply q r), w') ->
    (0 < -2 -> 0 <= r < -2) /\
    (-2 < 0 -> -2 < r <= 0) /\
    (r = 0 \/ Z.sgn r = Z.sgn (-2)) /\
    Z.abs r < Z.abs (-2).
Proof.
  apply (Divide_remainder_bound (pb.uniform pb.int64) 7 (-2) []). lia.
Defined.

(** The run the bound is about, on a divisor of each sign. *)
Example Divide_remainder_runs :
  fst (Divide (pb.uniform pb.int64) (pb.mkBinaryRequest 7 (-2)) [])
  = Returned (pb.mkDivideReply (-4) (-1)) /\
  fst (Divide (pb.uniform pb.int64) (pb.mkBinaryRequest (-7) 2) [])
  = Returned (pb.mkDivideReply (-4) 1).
Proof. split; reflexivity. Qed.

(** C3, as the specification words it, fails on the text of the error: the
    details Divide aborts with at x = 1, y = 0 are not "division by zero",
    whatever the types of the fields. *)
Lemma Divide_by_zero_details_counterexample :
  ~ exists schema w',
      serve_unary (Divide schema (pb.mkBinaryRequest 1 0)) []
      = (None, Failed INVALID_ARGUMENT "division by zero", w').
Proof.
  unfold serve_unary. intros [schema [w' H]].
  rewrite (Divide_zero schema 1 []) in H. inversion H.
Qed.

(** C3, amended: for every integer x, Divide(x, 0) fails with INVALID_ARGUMENT
    and the details "Division by zero is not allowed"; it aborts before a
    reply is built and the call delivers none. *)
Theorem Divide_by_zero_aborts (schema : pb.Schema) (x : Z) (w : list Event) :
  exists w',
    serve_unary (Divide schema (pb.mkBinaryRequest x 0)) w
    = (None, Failed INVALID_ARGUMENT "Division by zero is not allowed", w').
Proof.
  eexists. unfold serve_unary. rewrite (Divide_zero schema x w). reflexivity.
Qed.

(** ** Power *)

Lemma repeated_product_pow (b : Z) (e : nat) :
  repeated_product b e = b ^ Z.of_nat e.
Proof.
  induction e as [ | e IH ].
  - reflexivity.
  - cbn [repeated_product]. rewrite IH, Nat2Z.inj_succ, Z.pow_succ_r by lia.
    reflexivity.
Qed.

(** What [Power] does with a non-negative exponent. *)
Lemma Power_nonnegative (schema : pb.Schema) (b e : Z) (w : list Event) :
  0 <= e ->
  Power schema (pb.mkPowerRequest b e) w
  = if pb.fits (pb.result_type schema) (b ^ e)
    then (Returned (pb.mkBinaryReply (b ^ e)),
          (w ++ [Printed (mkLogLine BLUE "Power" (str b ++ "^" ++ str e));
                 Printed (mkLogLine GREEN "Power" ("= " ++ str (b ^ e)))])%list)
    else (Raised ValueError,
          (w ++ [Printed (mkLogLine BLUE "Power" (str b ++ "^" ++ str e))])%list).
Proof.
  intros He. run_handler. unfold pow. cbn [pb.base pb.exponent].
  apply Z.leb_le in He. rewrite He.
  destruct (pb.fits (pb.result_type schema) (b ^ e)); cbn [pb.result];
    rewrite <- ?app_assoc; reflexivity.
Qed.

(** What [Power] does with a negative exponent: no branch of it aborts, the
    call dies of the exception [pow] or the reply constructor raises. *)
Lemma Power_negative (schema : pb.Schema) (b e : Z) (w : list Event) :
  e < 0 ->
  Power schema (pb.mkPowerRequest b e) w
  = (Raised (if b =? 0 then ZeroDivisionError else TypeError),
     (w ++ [Printed (mkLogLine BLUE "Power" (str b ++ "^" ++ str e))])%list).
Proof.
  intros He. run_handler. unfold pow. cbn [pb.base pb.exponent].
  apply Z.leb_gt in He. rewrite He.
  destruct (b =? 0); reflexivity.
Qed.

Example Power_2_10 :
  serve_unary (Power (pb.uniform pb.int32) (pb.mkPowerRequest 2 10)) []
  = (Some (pb.mkBinaryReply 1024), Completed,
     [Printed (mkLogLine BLUE "Power" "2^10");
      Printed (mkLogLine GREEN "Power" "= 1024")]).
Proof. reflexivity. Qed.

Example Power_0_m1 :
  serve_unary (Power (pb.uniform pb.int32) (pb.mkPowerRequest 0 (-1))) []
  = (None, Crashed ZeroDivisionError,
     [Printed (mkLogLine BLUE "Power" "0^-1")]).
Proof. reflexivity. Qed.

(** C5 as the specification words it fails: Power(2, 64) is a request every
    integer type can carry, and its result 2^64 is beyond every integer type
    of protobuf.  Whatever the types of the fields, the reply constructor
    raises and the call ends without a reply. *)
Lemma Power_overflow_counterexample :
  (~ exists schema reply w',
       serve_unary (Power schema (pb.mkPowerRequest 2 64)) []
       = (Some reply, Completed, w')) /\
  serve_unary (Power (pb.uniform pb.int64) (pb.mkPowerRequest 2 64)) []
  = (None, Crashed ValueError, [Printed (mkLogLine BLUE "Power" "2^64")]).
Proof.
  split; [ | reflexivity].
  intros [schema [reply [w' E]]]. unfold serve_unary in E.
  rewrite Power_nonnegative, fits_too_big in E by lia. discriminate.
Qed.

(** C5, amended: for every integer b and every integer e >= 0 such that b^e
    is within the range of the reply's result field, Power succeeds and its
    result is exactly b^e, the product of e copies of b. *)
Theorem Power_exact (schema : pb.Schema) (b e : Z) (w : list Event)
    (He : 0 <= e) (Hfit : pb.fits (pb.result_type schema) (b ^ e) = true) :
  exists r w',
    serve_unary (Power schema (pb.mkPowerRequest b e)) w
    = (Some (pb.mkBinaryReply r), Completed, w') /\
    r = b ^ e /\
    r = repeated_product b (Z.to_nat e).
Proof.
  exists (b ^ e). eexists. unfold serve_unary.
  rewrite (Power_nonnegative schema b e w He), Hfit. split; [reflexivity | ].
  split; [reflexivity | ].
  rewrite repeated_product_pow, Z2Nat.id by assumption. reflexivity.
Qed.

Lemma Power_exact_witness :
  exists r w',
    serve_unary (Power (pb.uniform pb.int32) (pb.mkPowerRequest (-2) 3)) []
    = (Some (pb.mkBinaryReply r), Completed, w') /\
    r = (-2) ^ 3 /\
    r = repeated_product (-2) (Z.to_nat 3).
Proof.
  apply (Power_exact (pb.uniform pb.int32) (-2) 3 []); [lia | reflexivity].
Defined.

(** C4 at base 2, exponent -1: Power does not reject the request with
    INVALID_ARGUMENT.  [pow(2, -1)] is the float 0.5, the reply's integer
    field refuses it, and the call ends in an unhandled [TypeError] after the
    request line alone was logged; and no request at all makes Power
    abort. *)
Theorem Power_negative_exponent_not_rejected :
  (forall schema,
      serve_unary (Power schema (pb.mkPowerRequest 2 (-1))) []
      = (None, Crashed TypeError,
         [Printed (mkLogLine BLUE "Power" "2^-1")])) /\
  forall (schema : pb.Schema) (b e : Z) (w : list Event)
         (code : StatusCode) (details : string),
    fst (Power schema (pb.mkPowerRequest b e) w) <> Aborted code details.
Proof.
  split; [reflexivity | ].
  intros schema b e w code details.
  destruct (Z.lt_ge_cases e 0) as [He | He].
  - rewrite (Power_negative schema b e w He). cbn [fst]. discriminate.
  - rewrite (Power_nonnegative schema b e w He).
    destruct (pb.fits (pb.result_type schema) (b ^ e)); cbn [fst]; discriminate.
Qed.

(** ** What a unary call prints *)

(** X2: Every unary handler of the calculator prints its request line first, in
    blue, and then exactly one more line when it ends by itself: green with a
    reply, red with an abort.  When an exception escapes (Power on a negative
    exponent, a result its field cannot hold) the request line is all there
    is. *)
Theorem unary_calls_log_colours (schema : pb.Schema) :
  (forall req, map colour (printed (snd (Add schema req [])))
               = colours_for (fst (Add schema req []))) /\
  (forall req, map colour (printed (snd (Subtract schema req [])))
               = colours_for (fst (Subtract schema req []))) /\
  (forall req, map colour (printed (snd (Multiply schema req [])))
               = colours_for (fst (Multiply schema req []))) /\
  (forall req, map colour (printed (snd (Power schema req [])))
               = colours_for (fst (Power schema req []))) /\
  (forall req, map colour (printed (snd (Divide schema req [])))
               = colours_for (fst (Divide schema req []))).
Proof.
  split; [ | split; [ | split; [ | split ] ] ]; intros [a b].
  - rewrite Add_run.
    destruct (pb.fits (pb.result_type schema) (a + b)); reflexivity.
  - rewrite Subtract_run.
    destruct (pb.fits (pb.result_type schema) (a - b)); reflexivity.
  - rewrite Multiply_run.
    destruct (pb.fits (pb.result_type schema) (a * b)); reflexivity.
  - destruct (Z.lt_ge_cases b 0) as [He | He].
    + rewrite (Power_negative schema a b [] He). reflexivity.
    + rewrite (Power_nonnegative schema a b [] He).
      destruct (pb.fits (pb.result_type schema) (a ^ b)); reflexivity.
  - destruct (Z.eq_dec b 0) as [-> | Hy].
    + rewrite (Divide_zero schema a []). reflexivity.
    + rewrite (Divide_nonzero schema a b [] Hy).
      destruct (pb.fits (pb.quotient_type schema) (a / b)
                && pb.fits (pb.remainder_type schema) (a mod b)); reflexivity.
Qed.

(** X3: Power with a negative exponent, whatever the base: no reply and no abort.
    The call dies of [ZeroDivisionError] when the base is 0 and of
    [TypeError] otherwise, having printed the request line only. *)
Theorem Power_negative_exponent_crashes (schema : pb.Schema) (b e : Z)
    (w : list Event) (He : e < 0) :
  serve_unary (Power schema (pb.mkPowerRequest b e)) w
  = (None, Crashed (if b =? 0 then ZeroDivisionError else TypeError),
     (w ++ [Printed (mkLogLine BLUE "Power" (str b ++ "^" ++ str e))])%list).
Proof.
  unfold serve_unary. rewrite (Power_negative schema b e w He). reflexivity.
Qed.

Lemma Power_negative_exponent_crashes_witness :
  serve_unary (Power (pb.uniform pb.int64) (pb.mkPowerRequest 0 (-3))) []
  = (None, Crashed (if 0 =? 0 then ZeroDivisionError else TypeError),
     ([] ++ [Printed (mkLogLine BLUE "Power" (str 0 ++ "^" ++ str (-3)))])%list).
Proof.
  apply (Power_negative_exponent_crashes (pb.uniform pb.int64) 0 (-3) []). lia.
Defined.

(** ** More on Divide *)

Lemma Divide_reply_unique (schema : pb.Schema) (x y q r : Z) (w : list Event) :
  y <> 0 -> q * y + r = x -> 0 <= r < y \/ y < r <= 0 ->
  fst (Divide schema (pb.mkBinaryRequest x y) w)
  = if pb.fits (pb.quotient_type schema) q
       && pb.fits (pb.remainder_type schema) r
    then Returned (pb.mkDivideReply q r) else Raised ValueError.
Proof.
  intros Hy Hsplit Hrange.
  rewrite (Divide_nonzero schema x y w Hy).
  pose proof (floor_mod_range x y Hy) as Hr.
  destruct (Z.div_mod_unique y (x / y) q (x mod y) r Hr Hrange) as [-> ->].
  - rewrite <- (Z.div_mod x y Hy). lia.
  - destruct (pb.fits (pb.quotient_type schema) q
              && pb.fits (pb.remainder_type schema) r); reflexivity.
Qed.

(** X4: The reply of Divide is the only pair that splits x as q*y + r with r
    between 0 and y (0 included, y excluded): whoever finds such a pair has
    found the reply, which Divide returns when q and r are within the ranges
    of its two fields; when they are not, it raises the [ValueError] of the
    reply's constructor. *)
Theorem Divide_unique (schema : pb.Schema) (x y q r : Z) (w : list Event)
    (Hy : y <> 0) (Hsplit : q * y + r = x)
    (Hrange : 0 <= r < y \/ y < r <= 0) :
  fst (Divide schema (pb.mkBinaryRequest x y) w)
  = if pb.fits (pb.quotient_type schema) q
       && pb.fits (pb.remainder_type schema) r
    then Returned (pb.mkDivideReply q r) else Raised ValueError.
Proof.
  apply Divide_reply_unique; assumption.
Qed.

Lemma Divide_unique_witness :
  fst (Divide (pb.uniform pb.int64) (pb.mkBinaryRequest (-7) 2) [])
  = if pb.fits pb.int64 (-4) && pb.fits pb.int64 1
    then Returned (pb.mkDivideReply (-4) 1) else Raised ValueError.
Proof.
  apply (Divide_unique (pb.uniform pb.int64) (-7) 2 (-4) 1 []); lia.
Defined.

(** X5: Floor against truncation.  When y divides x or x and y have the same
    sign, Divide's quotient and remainder are those of division truncated
    towards zero; otherwise the quotient is one less and the remainder is
    y more.  That pair is the reply when it is within the ranges of the
    reply's fields, and otherwise the call ends in the [ValueError] of the
    reply's constructor. *)
Theorem Divide_against_truncation (schema : pb.Schema) (x y : Z)
    (w : list Event) (Hy : y <> 0) :
  fst (Divide schema (pb.mkBinaryRequest x y) w)
  = let (q, r) := floor_of_truncation x y in
    if pb.fits (pb.quotient_type schema) q
       && pb.fits (pb.remainder_type schema) r
    then Returned (pb.mkDivideReply q r) else Raised ValueError.
Proof.
  pose proof (Z.quot_rem' x y) as Hqr.
  pose proof (Z.rem_bound_abs x y Hy) as Habs.
  pose proof (Z.rem_nonneg x y Hy) as Hnn.
  pose proof (Z.rem_nonpos x y Hy) as Hnp.
  unfold floor_of_truncation.
  destruct (Z.eqb_spec (Z.rem x y) 0) as [H0 | H0]; cbn [orb].
  - apply Divide_reply_unique; lia.
  - destruct (Z.eqb_spec (Z.sgn x) (Z.sgn y)) as [Hs | Hs].
    + apply Divide_reply_unique; lia.
    + apply Divide_reply_unique; lia.
Qed.

Lemma Divide_against_truncation_witness :
  fst (Divide (pb.uniform pb.int64) (pb.mkBinaryRequest (-7) 2) [])
  = let (q, r) := floor_of_truncation (-7) 2 in
    if pb.fits pb.int64 q && pb.fits pb.int64 r
    then Returned (pb.mkDivideReply q r) else Raised ValueError.
Proof.
  apply (Divide_against_truncation (pb.uniform pb.int64) (-7) 2 []). lia.
Defined.

(** ** Calls in sequence *)

(** X6: Dividing a product by one of its factors gives back the other, with
    remainder 0: Multiply(x, y) followed by Divide(result, y), for y <> 0,
    when the product is within the range of Multiply's result field and x
    within that of Divide's quotient field. *)
Theorem Multiply_then_Divide (schema : pb.Schema) (x y : Z) (w : list Event)
    (Hy : y <> 0)
    (Hproduct : pb.fits (pb.result_type schema) (x * y) = true)
    (Hquotient : pb.fits (pb.quotient_type schema) x = true) :
  fst ((res <- Multiply schema (pb.mkBinaryRequest x y) ;;
        Divide schema (pb.mkBinaryRequest (pb.result res) y)) w)
  = Returned (pb.mkDivideReply x 0).
Proof.
  unfold bind. rewrite Multiply_run, Hproduct. cbn [pb.result].
  rewrite (Divide_reply_unique schema (x * y) y x 0) by lia.
  rewrite Hquotient, fits_0. reflexivity.
Qed.

Lemma Multiply_then_Divide_witness :
  fst ((res <- Multiply (pb.uniform pb.int32) (pb.mkBinaryRequest 6 (-7)) ;;
        Divide (pb.uniform pb.int32)
          (pb.mkBinaryRequest (pb.result res) (-7))) [])
  = Returned (pb.mkDivideReply 6 0).
Proof.
  apply (Multiply_then_Divide (pb.uniform pb.int32) 6 (-7) []);
    [lia | reflexivity | reflexivity].
Defined.

(** X7: Subtract undoes Add and Add undoes Subtract, on the same second
    operand, when the intermediate result and x are within the range of the
    result field; when the intermediate result is not, the first call
    already ends in [ValueError] and nothing comes back. *)
Theorem Add_Subtract_inverse (schema : pb.Schema) (x y : Z) (w : list Event)
    (Hx : pb.fits (pb.result_type schema) x = true) :
  fst ((res <- Add schema (pb.mkBinaryRequest x y) ;;
        Subtract schema (pb.mkBinaryRequest (pb.result res) y)) w)
  = (if pb.fits (pb.result_type schema) (x + y)
     then Returned (pb.mkBinaryReply x) else Raised ValueError) /\
  fst ((res <- Subtract schema (pb.mkBinaryRequest x y) ;;
        Add schema (pb.mkBinaryRequest (pb.result res) y)) w)
  = (if pb.fits (pb.result_type schema) (x - y)
     then Returned (pb.mkBinaryReply x) else Raised ValueError).
Proof.
  unfold bind. rewrite Add_run, Subtract_run. split.
  - destruct (pb.fits (pb.result_type schema) (x + y)); [ | reflexivity].
    cbn [pb.result]. rewrite Subtract_run.
    replace (x + y - y) with x by lia. rewrite Hx. reflexivity.
  - destruct (pb.fits (pb.result_type schema) (x - y)); [ | reflexivity].
    cbn [pb.result]. rewrite Add_run.
    replace (x - y + y) with x by lia. rewrite Hx. reflexivity.
Qed.

Lemma Add_Subtract_inverse_witness :
  fst ((res <- Add (pb.uniform pb.int32) (pb.mkBinaryRequest 5 9) ;;
        Subtract (pb.uniform pb.int32)
          (pb.mkBinaryRequest (pb.result res) 9)) [])
  = (if pb.fits pb.int32 (5 + 9)
     then Returned (pb.mkBinaryReply 5) else Raised ValueError) /\
  fst ((res <- Subtract (pb.uniform pb.int32) (pb.mkBinaryRequest 5 9) ;;
        Add (pb.uniform pb.int32) (pb.mkBinaryRequest (pb.result res) 9)) [])
  = (if pb.fits pb.int32 (5 - 9)
     then Returned (pb.mkBinaryReply 5) else Raised ValueError).
Proof.
  apply (Add_Subtract_inverse (pb.uniform pb.int32) 5 9 []). reflexivity.
Defined.

(** X8: The power of a sum of exponents is the product of the powers: for
    e1, e2 >= 0, multiplying the results of Power(b, e1) and Power(b, e2)
    gives the result of Power(b, e1 + e2), when the three powers are within
    the range of the result field. *)
Theorem Power_of_sum (schema : pb.Schema) (b e1 e2 : Z) (w w' : list Event)
    (He1 : 0 <= e1) (He2 : 0 <= e2)
    (Hfit1 : pb.fits (pb.result_type schema) (b ^ e1) = true)
    (Hfit2 : pb.fits (pb.result_type schema) (b ^ e2) = true)
    (Hfit : pb.fits (pb.result_type schema) (b ^ (e1 + e2)) = true) :
  fst ((p1 <- Power schema (pb.mkPowerRequest b e1) ;;
        p2 <- Power schema (pb.mkPowerRequest b e2) ;;
        Multiply schema (pb.mkBinaryRequest (pb.result p1) (pb.result p2))) w)
  = Returned (pb.mkBinaryReply (b ^ (e1 + e2))) /\
  fst (Power schema (pb.mkPowerRequest b (e1 + e2)) w')
  = Returned (pb.mkBinaryReply (b ^ (e1 + e2))).
Proof.
  split.
  - unfold bind. rewrite (Power_nonnegative schema b e1 w He1), Hfit1.
    rewrite (Power_nonnegative schema b e2) by assumption. rewrite Hfit2.
    cbn [pb.result]. rewrite Multiply_run.
    rewrite <- Z.pow_add_r by assumption. rewrite Hfit. reflexivity.
  - rewrite (Power_nonnegative schema b (e1 + e2) w') by lia.
    rewrite Hfit. reflexivity.
Qed.

Lemma Power_of_sum_witness :
  fst ((p1 <- Power (pb.uniform pb.int32) (pb.mkPowerRequest 2 3) ;;
        p2 <- Power (pb.uniform pb.int32) (pb.mkPowerRequest 2 4) ;;
        Multiply (pb.uniform pb.int32)
          (pb.mkBinaryRequest (pb.result p1) (pb.result p2))) [])
  = Returned (pb.mkBinaryReply (2 ^ (3 + 4))) /\
  fst (Power (pb.uniform pb.int32) (pb.mkPowerRequest 2 (3 + 4)) [])
  = Returned (pb.mkBinaryReply (2 ^ (3 + 4))).
Proof.
  apply (Power_of_sum (pb.uniform pb.int32) 2 3 4 [] []);
    [lia | lia | reflexivity | reflexivity | reflexivity].
Defined.

(** ** Factorial *)

Lemma Zfact_fact (k : nat) : Zfact k = Z.of_nat (fact k).
Proof.
  induction k as [ | k IH ]; [reflexivity | ].
  change (fact (S k)) with (S k * fact k)%nat.
  cbn [Zfact]. rewrite IH, Nat2Z.inj_mul. ring.
Qed.

Lemma Zfact_pos (k : nat) : 1 <= Zfact k.
Proof.
  induction k as [ | k IH ]; cbn [Zfact]; [lia | nia].
Qed.

Lemma Zfact_le (k n : nat) : (k <= n)%nat -> Zfact k <= Zfact n.
Proof.
  induction 1 as [ | n Hle IH ]; [lia | ].
  cbn [Zfact]. pose proof (Zfact_pos n). nia.
Qed.

Lemma step_fits_0 (schema : pb.Schema) : step_fits schema 0 = true.
Proof. unfold step_fits. cbn [Zfact Z.of_nat]. rewrite fits_0, fits_1. reflexivity. Qed.

(** The steps that can be built are an initial segment. *)
Lemma step_fits_below (schema : pb.Schema) (k n : nat) :
  (k <= n)%nat -> step_fits schema n = true -> step_fits schema k = true.
Proof.
  unfold step_fits. intros Hk H. apply andb_true_iff in H as [Hs Ha].
  apply andb_true_iff. split.
  - apply (fits_below _ (Z.of_nat n)); [lia | exact Hs].
  - apply (fits_below _ (Zfact n)); [ | exact Ha].
    pose proof (Zfact_pos k). pose proof (Zfact_le k n Hk). lia.
Qed.

(** 21! is beyond 64 bits: no type of protobuf holds it. *)
Lemma step_fits_21 (schema : pb.Schema) : step_fits schema 21 = false.
Proof.
  unfold step_fits. rewrite (fits_too_big _ (Zfact 21)).
  - apply andb_false_r.
  - vm_compute. discriminate.
Qed.

Lemma fitting_prefix_le (schema : pb.Schema) (count : nat) :
  forall lo, (fitting_prefix schema lo count <= count)%nat.
Proof.
  induction count as [ | count IH ]; intros lo; cbn [fitting_prefix]; [lia | ].
  destruct (step_fits schema lo); [ | lia]. specialize (IH (S lo)). lia.
Qed.

Lemma fitting_prefix_all (schema : pb.Schema) (count : nat) :
  forall lo,
    (forall i, (i < count)%nat -> step_fits schema (lo + i) = true) ->
    fitting_prefix schema lo count = count.
Proof.
  induction count as [ | count IH ]; intros lo H; cbn [fitting_prefix];
    [reflexivity | ].
  rewrite <- (Nat.add_0_r lo) at 1. rewrite (H 0%nat) by lia.
  rewrite IH; [reflexivity | ].
  intros i Hi. replace (S lo + i)%nat with (lo + S i)%nat by lia.
  apply H. lia.
Qed.

(** The prefix stops at the first step that cannot be built. *)
Lemma fitting_prefix_stops (schema : pb.Schema) (count : nat) :
  forall lo i,
    (i < count)%nat -> step_fits schema (lo + i) = false ->
    (fitting_prefix schema lo count <= i)%nat.
Proof.
  induction count as [ | count IH ]; intros lo i Hi H; [lia | ].
  cbn [fitting_prefix]. destruct (step_fits schema lo) eqn:E; [ | lia].
  destruct i as [ | i ].
  - rewrite Nat.add_0_r, E in H. discriminate.
  - assert ((fitting_prefix schema (S lo) count <= i)%nat); [ | lia].
    apply IH; [lia | ]. replace (S lo + i)%nat with (lo + S i)%nat by lia.
    exact H.
Qed.

(** Where the prefix stops short, the step after it cannot be built. *)
Lemma fitting_prefix_misfit (schema : pb.Schema) (count : nat) :
  forall lo,
    (fitting_prefix schema lo count < count)%nat ->
    step_fits schema (lo + fitting_prefix schema lo count) = false.
Proof.
  induction count as [ | count IH ]; intros lo H; [lia | ].
  cbn [fitting_prefix] in *. destruct (step_fits schema lo) eqn:E.
  - replace (lo + S (fitting_prefix schema (S lo) count))%nat
      with (S lo + fitting_prefix schema (S lo) count)%nat by lia.
    apply IH. lia.
  - rewrite Nat.add_0_r. exact E.
Qed.

(** Every step of the prefix can be built. *)
Lemma fitting_prefix_fits (schema : pb.Schema) (count : nat) :
  forall lo i,
    (i < fitting_prefix schema lo count)%nat ->
    step_fits schema (lo + i) = true.
Proof.
  induction count as [ | count IH ]; intros lo i Hi; cbn [fitting_prefix] in Hi;
    [lia | ].
  destruct (step_fits schema lo) eqn:E; [ | lia].
  destruct i as [ | i ]; [rewrite Nat.add_0_r; exact E | ].
  replace (lo + S i)%nat with (S lo + i)%nat by lia. apply IH. lia.
Qed.

Lemma printed_app (w l : list Event) :
  printed (w ++ l) = (printed w ++ printed l)%list.
Proof.
  induction w as [ | [line | ms] w IH ]; cbn [app printed]; rewrite ?IH;
    reflexivity.
Qed.

Lemma slept_ms_app (w l : list Event) :
  slept_ms (w ++ l) = slept_ms w + slept_ms l.
Proof.
  induction w as [ | [line | ms] w IH ]; cbn [app slept_ms]; rewrite ?IH; lia.
Qed.

(** The first pull on a generator made for [n >= 0] yields step 0 with
    accumulator 1, which every type holds. *)
Lemma next_Created_nonnegative (schema : pb.Schema) (n : Z) (w : list Event) :
  0 <= n ->
  exists l,
    next schema (Factorial (pb.mkUnaryRequest n)) w
    = (Returned (Some (factorial_step 0), Suspended n 0 1), (w ++ l)%list) /\
    slept_ms l = 0 /\ map colour (printed l) = [BLUE; GREEN].
Proof.
  intros Hn. unfold Factorial. run_handler. cbn [pb.n].
  replace (n <? 0) with false by (symmetry; apply Z.ltb_ge; lia).
  replace (0 <? n + 1) with true by (symmetry; apply Z.ltb_lt; lia).
  cbn [Z.eqb]. rewrite fits_0, fits_1. cbn [andb].
  rewrite <- app_assoc. eexists.
  split; [reflexivity | split; reflexivity].
Qed.

(** The first pull on a generator made for [n < 0] aborts. *)
Lemma next_Created_negative (schema : pb.Schema) (n : Z) (w : list Event) :
  n < 0 ->
  next schema (Factorial (pb.mkUnaryRequest n)) w
  = (Aborted INVALID_ARGUMENT "Negative factorial is undefined",
     (w ++ [Printed (mkLogLine BLUE "Factorial" ("n=" ++ str n))]
        ++ [Printed (mkLogLine RED "Factorial" "ERROR: negative")])%list).
Proof.
  intros Hn. unfold Factorial. run_handler. cbn [pb.n].
  replace (n <? 0) with true by (symmetry; apply Z.ltb_lt; lia).
  rewrite <- app_assoc. reflexivity.
Qed.

(** A pull on a generator parked at step [k < n], whose accumulator is [k!]:
    it sleeps, and then yields step [k+1] with accumulator [(k+1)!] if that
    element can be built, and raises if it cannot. *)
Lemma next_Suspended_more (schema : pb.Schema) (n : Z) (k : nat)
    (w : list Event) :
  Z.of_nat k < n ->
  exists l,
    next schema (Suspended n (Z.of_nat k) (Zfact k)) w
    = (if step_fits schema (S k)
       then Returned (Some (factorial_step (S k)),
                      Suspended n (Z.of_nat (S k)) (Zfact (S k)))
       else Raised ValueError,
       (w ++ Slept 50 :: l)%list) /\
    slept_ms l = 0 /\
    map colour (printed l) = if step_fits schema (S k) then [GREEN] else [].
Proof.
  intros Hk. run_handler.
  replace (Z.of_nat k + 1 <? n + 1) with true by (symmetry; apply Z.ltb_lt; lia).
  replace (Z.of_nat k + 1 =? 0) with false by (symmetry; apply Z.eqb_neq; lia).
  unfold step_fits, factorial_step. cbn [Zfact].
  replace (Z.of_nat (S k)) with (Z.of_nat k + 1) by lia.
  destruct (pb.fits (pb.step_type schema) (Z.of_nat k + 1)
            && pb.fits (pb.accumulator_type schema)
                 (Zfact k * (Z.of_nat k + 1))).
  - rewrite <- app_assoc. eexists.
    split; [reflexivity | split; reflexivity].
  - exists []. split; [reflexivity | split; reflexivity].
Qed.

(** A pull on a generator parked at the last step finds the range exhausted:
    the generator returns. *)
Lemma next_Suspended_last (schema : pb.Schema) (n acc : Z) (w : list Event) :
  next schema (Suspended n n acc) w
  = (Returned (None, Finished), (w ++ [Slept 50])%list).
Proof.
  run_handler.
  replace (n + 1 <? n + 1) with false by (symmetry; apply Z.ltb_irrefl).
  reflexivity.
Qed.

(** Serving a generator parked at step [k] with [d] steps to go, given
    [d + 1] pulls or more: the elements that can be built are delivered, as
    far as the first that cannot; the call completes if that is all of them
    and ends in the [ValueError] of the constructor otherwise.  Every pull
    sleeps once and every element delivered has its green line. *)
Lemma serve_stream_Suspended (schema : pb.Schema) (d : nat) :
  forall (k fuel : nat) (sent : list pb.FactorialStep) (w : list Event),
    (d + 1 <= fuel)%nat ->
    let m := fitting_prefix schema (S k) d in
    exists l,
      serve_stream schema fuel
        (Suspended (Z.of_nat (k + d)) (Z.of_nat k) (Zfact k)) sent w
      = Some ((sent ++ factorial_steps (S k) m)%list,
              (if (m =? d)%nat then Completed else Crashed ValueError),
              (w ++ l)%list) /\
      slept_ms l = 50 * (Z.of_nat m + 1) /\
      map colour (printed l) = repeat GREEN m.
Proof.
  induction d as [ | d IH ]; intros k fuel sent w Hfuel m; subst m.
  - destruct fuel as [ | fuel ]; [lia | ].
    rewrite Nat.add_0_r. cbn [serve_stream fitting_prefix].
    rewrite next_Suspended_last. unfold factorial_steps. cbn [seq map].
    rewrite app_nil_r. exists [Slept 50].
    split; [reflexivity | split; reflexivity].
  - destruct fuel as [ | fuel ]; [lia | ].
    cbn [serve_stream fitting_prefix].
    destruct (next_Suspended_more schema (Z.of_nat (k + S d)) k w)
      as [l1 [E [Hs Hc]]]; [lia | ].
    rewrite E. destruct (step_fits schema (S k)).
    + replace (k + S d)%nat with (S k + d)%nat by lia.
      destruct (IH (S k) fuel (sent ++ [factorial_step (S k)])%list
                  (w ++ Slept 50 :: l1)%list) as [l2 [E2 [Hs2 Hc2]]]; [lia | ].
      rewrite E2. exists (Slept 50 :: l1 ++ l2)%list.
      unfold factorial_steps. cbn [seq map Nat.eqb].
      rewrite <- !app_assoc. split; [reflexivity | ].
      cbn [slept_ms printed]. rewrite slept_ms_app, printed_app, map_app.
      rewrite Hs, Hs2, Hc, Hc2. split; [lia | reflexivity].
    + unfold factorial_steps. cbn [seq map Nat.eqb]. rewrite app_nil_r.
      exists (Slept 50 :: l1). split; [reflexivity | ].
      cbn [slept_ms printed]. rewrite Hs, Hc. split; reflexivity.
Qed.

(** Serving [Factorial(n)] for [n >= 0], given [n + 2] pulls or more: the
    stream is [0!, 1!, ...] as far as the elements can be built. *)
Lemma serve_stream_Factorial (schema : pb.Schema) (n fuel : nat)
    (w : list Event) :
  (n + 2 <= fuel)%nat ->
  let m := fitting_prefix schema 0 (S n) in
  exists l,
    serve_stream schema fuel (Factorial (pb.mkUnaryRequest (Z.of_nat n))) [] w
    = Some (factorial_steps 0 m,
            (if (m =? S n)%nat then Completed else Crashed ValueError),
            (w ++ l)%list) /\
    slept_ms l = 50 * Z.of_nat m /\
    map colour (printed l) = BLUE :: repeat GREEN m.
Proof.
  intros Hfuel m. subst m. destruct fuel as [ | fuel ]; [lia | ].
  cbn [serve_stream fitting_prefix]. rewrite step_fits_0.
  destruct (next_Created_nonnegative schema (Z.of_nat n) w) as [l1 [E [Hs Hc]]];
    [lia | ].
  rewrite E.
  destruct (serve_stream_Suspended schema n 0 fuel
              ([] ++ [factorial_step 0])%list (w ++ l1)%list)
    as [l2 [E2 [Hs2 Hc2]]]; [lia | ].
  change (Z.of_nat (0 + n)) with (Z.of_nat n) in E2.
  change (Z.of_nat 0) with 0 in E2. change (Zfact 0) with 1 in E2.
  rewrite E2. exists (l1 ++ l2)%list.
  unfold factorial_steps. cbn [seq map Nat.eqb].
  rewrite <- !app_assoc. split; [reflexivity | ].
  rewrite slept_ms_app, printed_app, map_app, Hs, Hs2, Hc, Hc2.
  split; [lia | reflexivity].
Qed.

(** More pulls than a call needs change nothing. *)
Lemma serve_stream_more_fuel (schema : pb.Schema) (fuel : nat) :
  forall extra gen sent w r,
    serve_stream schema fuel gen sent w = Some r ->
    serve_stream schema (fuel + extra) gen sent w = Some r.
Proof.
  induction fuel as [ | fuel IH ]; intros extra gen sent w r H;
    [discriminate | ].
  cbn [Nat.add serve_stream] in *.
  destruct (next schema gen w) as [[[[s | ] gen'] | c d | e] w'];
    try exact H.
  apply IH. exact H.
Qed.

Lemma factorial_steps_length (lo count : nat) :
  length (factorial_steps lo count) = count.
Proof. unfold factorial_steps. rewrite length_map, length_seq. reflexivity. Qed.

Lemma factorial_steps_nth (count k : nat) :
  (k < count)%nat ->
  nth_error (factorial_steps 0 count) k = Some (factorial_step k).
Proof.
  intros Hk. unfold factorial_steps.
  rewrite nth_error_map, nth_error_seq.
  destruct (Nat.ltb_spec k count) as [ _ | H ]; [reflexivity | lia].
Qed.

Lemma accumulator_at_factorial_steps (count k : nat) :
  (k < count)%nat ->
  accumulator_at (factorial_steps 0 count) (Z.of_nat k) = Zfact k.
Proof.
  intros Hk. unfold accumulator_at. rewrite Nat2Z.id.
  apply nth_error_nth. rewrite nth_error_map, (factorial_steps_nth count k Hk).
  reflexivity.
Qed.

(** When [n] and [n!] are within their fields, so is every element of the
    stream of [Factorial(n)]. *)
Lemma fitting_prefix_whole (schema : pb.Schema) (n : nat) :
  pb.fits (pb.step_type schema) (Z.of_nat n) = true ->
  pb.fits (pb.accumulator_type schema) (Z.of_nat (fact n)) = true ->
  fitting_prefix schema 0 (S n) = S n.
Proof.
  intros Hs Ha. apply fitting_prefix_all. intros i Hi. cbn [Nat.add].
  apply (step_fits_below schema i n); [lia | ].
  unfold step_fits. rewrite Zfact_fact, Hs, Ha. reflexivity.
Qed.

(** C1 as the specification words it fails: 21! does not fit in 64 bits, so
    whatever the types of the fields the element of step 21 cannot be built
    and Factorial(21) never completes.  With 64-bit signed fields it delivers
    the 21 elements 0! to 20! and then ends in the [ValueError] of the
    element's constructor. *)
Lemma Factorial_21_counterexample :
  (~ exists schema fuel steps w',
       serve_stream schema fuel (Factorial (pb.mkUnaryRequest 21)) [] []
       = Some (steps, Completed, w')) /\
  exists w',
    serve_stream (pb.uniform pb.int64) 23
      (Factorial (pb.mkUnaryRequest 21)) [] []
    = Some (factorial_steps 0 21, Crashed ValueError, w').
Proof.
  split.
  - intros [schema [fuel [steps [w' E]]]].
    apply (serve_stream_more_fuel schema fuel 23) in E.
    destruct (serve_stream_Factorial schema 21 (fuel + 23) []) as [l [E' _]];
      [lia | ].
    change (Z.of_nat 21) with 21 in E'. rewrite E' in E.
    pose proof (fitting_prefix_stops schema 22 0 21 ltac:(lia)
                  (step_fits_21 schema)) as Hm.
    destruct (Nat.eqb_spec (fitting_prefix schema 0 22) 22) as [H22 | _];
      [lia | discriminate].
  - destruct (serve_stream_Factorial (pb.uniform pb.int64) 21 23 [])
      as [l [E _]]; [lia | ].
    change (Z.of_nat 21) with 21 in E.
    replace (fitting_prefix (pb.uniform pb.int64) 0 22) with 21%nat in E
      by (vm_compute; reflexivity).
    exists ([] ++ l)%list. exact E.
Qed.

(** C1, amended: for every integer n >= 0 such that n and n! are within the
    ranges of the element's step and accumulator fields (n <= 20 when the
    accumulator has 64 bits), the Factorial handler emits exactly n+1
    elements; their step fields are 0, 1, ..., n in strictly increasing order;
    the accumulator at step k is k!, that is 1 at step 0 and the previous
    accumulator times k from then on; and the call terminates normally after
    the last element (any budget of n+2 pulls or more sees it do so). *)
Theorem Factorial_stream (schema : pb.Schema) (n : Z) (fuel : nat)
    (w : list Event)
    (Hn : 0 <= n) (Hfuel : (Z.to_nat n + 2 <= fuel)%nat)
    (Hstep : pb.fits (pb.step_type schema) n = true)
    (Hacc : pb.fits (pb.accumulator_type schema)
              (Z.of_nat (fact (Z.to_nat n))) = true) :
  exists steps w',
    serve_stream schema fuel (Factorial (pb.mkUnaryRequest n)) [] w
    = Some (steps, Completed, w') /\
    Z.of_nat (length steps) = n + 1 /\
    map pb.step steps = map Z.of_nat (seq 0 (Z.to_nat n + 1)) /\
    (forall i j si sj,
        (i < j)%nat -> nth_error steps i = Some si -> nth_error steps j = Some sj ->
        pb.step si < pb.step sj) /\
    (forall k, 0 <= k <= n ->
        nth_error steps (Z.to_nat k)
        = Some (pb.mkFactorialStep k (Z.of_nat (fact (Z.to_nat k))))) /\
    accumulator_at steps 0 = 1 /\
    (forall k, 1 <= k <= n ->
        accumulator_at steps k = accumulator_at steps (k - 1) * k).
Proof.
  destruct (serve_stream_Factorial schema (Z.to_nat n) fuel w Hfuel)
    as [l [E _]].
  rewrite Z2Nat.id in E by assumption.
  rewrite fitting_prefix_whole, Nat.eqb_refl in E
    by (rewrite ?Z2Nat.id by assumption; assumption).
  exists (factorial_steps 0 (S (Z.to_nat n))), (w ++ l)%list.
  split; [exact E | ].
  split; [rewrite factorial_steps_length; lia | ].
  split.
  { unfold factorial_steps. rewrite map_map. unfold factorial_step.
    cbn [pb.step]. rewrite Nat.add_1_r. reflexivity. }
  split.
  { intros i j si sj Hij Hi Hj.
    assert (Hjn : (j < S (Z.to_nat n))%nat).
    { rewrite <- (factorial_steps_length 0 (S (Z.to_nat n))).
      apply nth_error_Some. rewrite Hj. discriminate. }
    rewrite factorial_steps_nth in Hi by lia.
    rewrite factorial_steps_nth in Hj by lia.
    injection Hi as <-. injection Hj as <-.
    unfold factorial_step. cbn [pb.step]. lia. }
  split.
  { intros k Hk. rewrite factorial_steps_nth by lia.
    unfold factorial_step. rewrite Zfact_fact, Z2Nat.id by lia. reflexivity. }
  split.
  { apply (accumulator_at_factorial_steps (S (Z.to_nat n)) 0). lia. }
  intros k Hk.
  replace k with (Z.of_nat (S (Z.to_nat (k - 1)))) at 1 by lia.
  replace (k - 1) with (Z.of_nat (Z.to_nat (k - 1))) at 2 by lia.
  rewrite !accumulator_at_factorial_steps by lia.
  cbn [Zfact]. f_equal. lia.
Qed.

Lemma Factorial_stream_witness :
  exists steps w',
    serve_stream (pb.uniform pb.int32) 5
      (Factorial (pb.mkUnaryRequest 3)) [] []
    = Some (steps, Completed, w') /\
    Z.of_nat (length steps) = 3 + 1 /\
    map pb.step steps = map Z.of_nat (seq 0 (Z.to_nat 3 + 1)) /\
    (forall i j si sj,
        (i < j)%nat -> nth_error steps i = Some si -> nth_error steps j = Some sj ->
        pb.step si < pb.step sj) /\
    (forall k, 0 <= k <= 3 ->
        nth_error steps (Z.to_nat k)
        = Some (pb.mkFactorialStep k (Z.of_nat (fact (Z.to_nat k))))) /\
    accumulator_at steps 0 = 1 /\
    (forall k, 1 <= k <= 3 ->
        accumulator_at steps k = accumulator_at steps (k - 1) * k).
Proof.
  apply (Factorial_stream (pb.uniform pb.int32) 3 5 []);
    [lia | vm_compute; lia | reflexivity | reflexivity].
Defined.

(** The stream of [Factorial(3)], run. *)
Example Factorial_3 :
  option_map (fun r => fst r)
    (serve_stream (pb.uniform pb.int32) 5
       (Factorial (pb.mkUnaryRequest 3)) [] [])
  = Some ([pb.mkFactorialStep 0 1; pb.mkFactorialStep 1 1;
           pb.mkFactorialStep 2 2; pb.mkFactorialStep 3 6], Completed).
Proof. vm_compute. reflexivity. Qed.

(** The stream of [Factorial(13)] when the accumulator has 32 bits: thirteen
    elements, the last of them 12!, and then the [ValueError]. *)
Example Factorial_13_int32 :
  option_map (fun r => (length (fst (fst r)), last (fst (fst r))
                                                (pb.mkFactorialStep 0 0),
                        snd (fst r), slept_ms (snd r)))
    (serve_stream (pb.uniform pb.int32) 15
       (Factorial (pb.mkUnaryRequest 13)) [] [])
  = Some (13%nat, pb.mkFactorialStep 12 479001600, Crashed ValueError, 650).
Proof. vm_compute. reflexivity. Qed.

(** C9: for every integer n < 0 the Factorial handler fails at once with
    INVALID_ARGUMENT: the first pull on the generator aborts, so the call
    fails with no element delivered. *)
Theorem Factorial_negative_aborts (schema : pb.Schema) (n : Z) (fuel : nat)
    (w : list Event) (Hn : n < 0) :
  exists w',
    next schema (Factorial (pb.mkUnaryRequest n)) w
    = (Aborted INVALID_ARGUMENT "Negative factorial is undefined", w') /\
    serve_stream schema (S fuel) (Factorial (pb.mkUnaryRequest n)) [] w
    = Some ([], Failed INVALID_ARGUMENT "Negative factorial is undefined", w').
Proof.
  cbn [serve_stream]. rewrite (next_Created_negative schema n w Hn).
  eexists. split; reflexivity.
Qed.

Lemma Factorial_negative_aborts_witness :
  exists w',
    next (pb.uniform pb.int64) (Factorial (pb.mkUnaryRequest (-1))) []
    = (Aborted INVALID_ARGUMENT "Negative factorial is undefined", w') /\
    serve_stream (pb.uniform pb.int64) 1
      (Factorial (pb.mkUnaryRequest (-1))) [] []
    = Some ([], Failed INVALID_ARGUMENT "Negative factorial is undefined", w').
Proof.
  apply (Factorial_negative_aborts (pb.uniform pb.int64) (-1) 0 []). lia.
Defined.

(** ** The Factorial stream, element by element *)

(** X10: What serving Factorial(n) leaves on the console, for n >= 0: the
    request line in blue and then one green line per element delivered, and
    no red line; the server has slept 50 ms per element delivered.  The
    elements delivered are 0!, 1!, ... in order: either all n+1 of them, and
    the call completes, or those before the first element that its fields
    cannot hold, and the call ends in the [ValueError] of the element's
    constructor. *)
Theorem Factorial_stream_trace (schema : pb.Schema) (n : Z) (fuel : nat)
    (w : list Event)
    (Hn : 0 <= n) (Hfuel : (Z.to_nat n + 2 <= fuel)%nat) :
  exists (m : nat) t l,
    serve_stream schema fuel (Factorial (pb.mkUnaryRequest n)) [] w
    = Some (factorial_steps 0 m, t, (w ++ l)%list) /\
    map colour (printed l) = BLUE :: repeat GREEN m /\
    slept_ms l = 50 * Z.of_nat m /\
    (1 <= m)%nat /\
    (t = Completed /\ m = (Z.to_nat n + 1)%nat \/
     t = Crashed ValueError /\ (m <= Z.to_nat n)%nat /\
     step_fits schema m = false).
Proof.
  destruct (serve_stream_Factorial schema (Z.to_nat n) fuel w Hfuel)
    as [l [E [Hs Hc]]].
  rewrite Z2Nat.id in E by assumption.
  set (m := fitting_prefix schema 0 (S (Z.to_nat n))) in *.
  exists m, (if (m =? S (Z.to_nat n))%nat then Completed
             else Crashed ValueError), l.
  split; [exact E | split; [exact Hc | split; [exact Hs | ] ] ].
  split.
  { subst m. cbn [fitting_prefix]. rewrite step_fits_0. lia. }
  pose proof (fitting_prefix_le schema (S (Z.to_nat n)) 0) as Hle. fold m in Hle.
  destruct (Nat.eqb_spec m (S (Z.to_nat n))) as [Hm | Hm].
  - left. split; [reflexivity | lia].
  - right. split; [reflexivity | split; [lia | ] ].
    apply (fitting_prefix_misfit schema (S (Z.to_nat n)) 0). fold m. lia.
Qed.

Lemma Factorial_stream_trace_witness :
  exists (m : nat) t l,
    serve_stream (pb.uniform pb.int64) 4
      (Factorial (pb.mkUnaryRequest 2)) [] []
    = Some (factorial_steps 0 m, t, ([] ++ l)%list) /\
    map colour (printed l) = BLUE :: repeat GREEN m /\
    slept_ms l = 50 * Z.of_nat m /\
    (1 <= m)%nat /\
    (t = Completed /\ m = (Z.to_nat 2 + 1)%nat \/
     t = Crashed ValueError /\ (m <= Z.to_nat 2)%nat /\
     step_fits (pb.uniform pb.int64) m = false).
Proof.
  apply (Factorial_stream_trace (pb.uniform pb.int64) 2 4 []);
    [lia | vm_compute; lia].
Defined.

(** X11: The pacing against the client's deadline.  Whatever n >= 0 is asked
    for and whatever the types of the fields, a Factorial call delivers at
    most 21 elements (21! is beyond 64 bits) and its sleeps add up to
    1050 ms at most, short of the client's TIMEOUT_SEC (2 s). *)
Theorem Factorial_pacing_below_timeout (schema : pb.Schema) (n : Z)
    (fuel : nat) (w : list Event)
    (Hn : 0 <= n) (Hfuel : (Z.to_nat n + 2 <= fuel)%nat) :
  exists steps t l,
    serve_stream schema fuel (Factorial (pb.mkUnaryRequest n)) [] w
    = Some (steps, t, (w ++ l)%list) /\
    (length steps <= 21)%nat /\
    slept_ms l = 50 * Z.of_nat (length steps) /\
    slept_ms l < client.TIMEOUT_SEC * 1000.
Proof.
  destruct (serve_stream_Factorial schema (Z.to_nat n) fuel w Hfuel)
    as [l [E [Hs Hc]]].
  rewrite Z2Nat.id in E by assumption.
  set (m := fitting_prefix schema 0 (S (Z.to_nat n))) in *.
  assert (Hm : (m <= 21)%nat).
  { pose proof (fitting_prefix_le schema (S (Z.to_nat n)) 0) as Hle.
    fold m in Hle.
    destruct (Nat.le_gt_cases (S (Z.to_nat n)) 21) as [Hsmall | Hbig];
      [lia | ].
    apply (fitting_prefix_stops schema (S (Z.to_nat n)) 0 21); [lia | ].
    apply step_fits_21. }
  exists (factorial_steps 0 m), (if (m =? S (Z.to_nat n))%nat then Completed
                                 else Crashed ValueError), l.
  rewrite factorial_steps_length. unfold client.TIMEOUT_SEC.
  split; [exact E | split; [exact Hm | split; [exact Hs | lia] ] ].
Qed.

Lemma Factorial_pacing_below_timeout_witness :
  exists steps t l,
    serve_stream (pb.uniform pb.int64) 41
      (Factorial (pb.mkUnaryRequest 39)) [] []
    = Some (steps, t, ([] ++ l)%list) /\
    (length steps <= 21)%nat /\
    slept_ms l = 50 * Z.of_nat (length steps) /\
    slept_ms l < client.TIMEOUT_SEC * 1000.
Proof.
  apply (Factorial_pacing_below_timeout (pb.uniform pb.int64) 39 41 []);
    [lia | vm_compute; lia].
Defined.

(** X12: The generator keeps its invariant.  From a generator made for n that
    satisfies it: an element a pull yields has a step within 0..n and the
    factorial of that step as accumulator, both within their fields, and the
    generator is parked there; when the pull yields nothing the generator is
    finished; it aborts only on a generator not yet started and with n < 0;
    and the only exception it raises is the [ValueError] of an element that
    cannot be built, the one after the step where the generator is parked. *)
Theorem next_keeps_invariant (schema : pb.Schema) (n : Z) (gen : FactorialGen)
    (w : list Event) (Hinv : gen_invariant n gen) :
  match fst (next schema gen w) with
  | Returned (Some s, gen') =>
      gen_invariant n gen' /\
      0 <= pb.step s <= n /\
      pb.accumulator s = Z.of_nat (fact (Z.to_nat (pb.step s))) /\
      step_fits schema (Z.to_nat (pb.step s)) = true /\
      gen' = Suspended n (pb.step s) (pb.accumulator s)
  | Returned (None, gen') => gen' = Finished
  | Aborted code _ =>
      code = INVALID_ARGUMENT /\ n < 0 /\ exists req, gen = Created req
  | Raised e =>
      e = ValueError /\
      exists k acc,
        gen = Suspended n k acc /\ k < n /\
        step_fits schema (Z.to_nat (k + 1)) = false
  end.
Proof.
  destruct gen as [req | n' k acc | ]; cbn [gen_invariant] in Hinv.
  - destruct req as [m]. cbn [pb.n] in Hinv. subst m.
    run_handler. cbn [pb.n].
    destruct (Z.ltb_spec n 0) as [Hneg | Hnn].
    + cbn [fst].
      split; [reflexivity | split; [assumption | eexists; reflexivity ] ].
    + replace (0 <? n + 1) with true by (symmetry; apply Z.ltb_lt; lia).
      cbn [Z.eqb]. rewrite fits_0, fits_1.
      cbn [andb fst gen_invariant pb.step pb.accumulator Z.to_nat].
      rewrite step_fits_0. repeat split; try reflexivity; lia.
  - destruct Hinv as [-> [Hk ->]]. run_handler.
    destruct (Z.ltb_spec (k + 1) (n + 1)) as [Hlt | Hge]; [ | reflexivity].
    replace (k + 1 =? 0) with false by (symmetry; apply Z.eqb_neq; lia).
    assert (Hfact : Zfact (Z.to_nat k) * (k + 1) = Zfact (Z.to_nat (k + 1))).
    { replace (Z.to_nat (k + 1)) with (S (Z.to_nat k)) by lia.
      cbn [Zfact]. f_equal. lia. }
    rewrite Hfact.
    assert (Hfits : pb.fits (pb.step_type schema) (k + 1)
                    && pb.fits (pb.accumulator_type schema)
                         (Zfact (Z.to_nat (k + 1)))
                    = step_fits schema (Z.to_nat (k + 1))).
    { unfold step_fits. rewrite Z2Nat.id by lia. reflexivity. }
    rewrite Hfits. destruct (step_fits schema (Z.to_nat (k + 1))) eqn:E.
    + cbn [fst gen_invariant pb.step pb.accumulator].
      rewrite <- Zfact_fact, E. repeat split; try reflexivity; lia.
    + cbn [fst]. split; [reflexivity | ].
      exists k, (Zfact (Z.to_nat k)).
      split; [reflexivity | split; [lia | exact E] ].
  - reflexivity.
Qed.

Lemma next_keeps_invariant_witness :
  match fst (next (pb.uniform pb.int64) (Suspended 5 3 6) []) with
  | Returned (Some s, gen') =>
      gen_invariant 5 gen' /\
      0 <= pb.step s <= 5 /\
      pb.accumulator s = Z.of_nat (fact (Z.to_nat (pb.step s))) /\
      step_fits (pb.uniform pb.int64) (Z.to_nat (pb.step s)) = true /\
      gen' = Suspended 5 (pb.step s) (pb.accumulator s)
  | Returned (None, gen') => gen' = Finished
  | Aborted code _ =>
      code = INVALID_ARGUMENT /\ 5 < 0 /\
      exists req, Suspended 5 3 6 = Created req
  | Raised e =>
      e = ValueError /\
      exists k acc,
        Suspended 5 3 6 = Suspended 5 k acc /\ k < 5 /\
        step_fits (pb.uniform pb.int64) (Z.to_nat (k + 1)) = false
  end.
Proof.
  apply (next_keeps_invariant (pb.uniform pb.int64) 5 (Suspended 5 3 6) []).
  cbn. repeat split; lia.
Defined.

(** X13: Along what a Factorial(n) call delivers, n >= 0, the accumulators never
    decrease and are all at least 1, however the call ends. *)
Theorem Factorial_accumulators_monotone (schema : pb.Schema) (n : Z)
    (fuel : nat) (w : list Event)
    (Hn : 0 <= n) (Hfuel : (Z.to_nat n + 2 <= fuel)%nat) :
  exists steps t w',
    serve_stream schema fuel (Factorial (pb.mkUnaryRequest n)) [] w
    = Some (steps, t, w') /\
    (1 <= length steps)%nat /\
    forall i j si sj,
      (i <= j)%nat ->
      nth_error steps i = Some si -> nth_error steps j = Some sj ->
      1 <= pb.accumulator si <= pb.accumulator sj.
Proof.
  destruct (serve_stream_Factorial schema (Z.to_nat n) fuel w Hfuel)
    as [l [E _]].
  rewrite Z2Nat.id in E by assumption.
  set (m := fitting_prefix schema 0 (S (Z.to_nat n))) in *.
  exists (factorial_steps 0 m), (if (m =? S (Z.to_nat n))%nat then Completed
                                 else Crashed ValueError), (w ++ l)%list.
  split; [exact E | ]. rewrite factorial_steps_length.
  split.
  { subst m. cbn [fitting_prefix]. rewrite step_fits_0. lia. }
  intros i j si sj Hij Hi Hj.
  assert (Hjn : (j < m)%nat).
  { rewrite <- (factorial_steps_length 0 m).
    apply nth_error_Some. rewrite Hj. discriminate. }
  rewrite factorial_steps_nth in Hi by lia.
  rewrite factorial_steps_nth in Hj by lia.
  injection Hi as <-. injection Hj as <-.
  unfold factorial_step. cbn [pb.accumulator].
  pose proof (Zfact_le i j Hij). pose proof (Zfact_pos i). lia.
Qed.

Lemma Factorial_accumulators_monotone_witness :
  exists steps t w',
    serve_stream (pb.uniform pb.int64) 6
      (Factorial (pb.mkUnaryRequest 4)) [] []
    = Some (steps, t, w') /\
    (1 <= length steps)%nat /\
    forall i j si sj,
      (i <= j)%nat ->
      nth_error steps i = Some si -> nth_error steps j = Some sj ->
      1 <= pb.accumulator si <= pb.accumulator sj.
Proof.
  apply (Factorial_accumulators_monotone (pb.uniform pb.int64) 4 6 []);
    [lia | vm_compute; lia].
Defined.

(** ** DescriptiveStats *)

Section DescriptiveStatsFacts.

Variables st_mean st_variance : list float -> PyException + float.
Variables float_str float_3f : float -> string.

Local Abbreviation collect := (StatsServicer.collect float_str).
Local Abbreviation DescriptiveStats :=
  (StatsServicer.DescriptiveStats st_mean st_variance float_str float_3f).

(** The loop over the request stream never fails and gathers the samples in
    the order they were sent. *)
Lemma collect_values (req_iter : list pb.SampleValue) :
  forall (vals : list float) (w : list Event),
    fst (collect req_iter vals w) = Returned (vals ++ map pb.v req_iter)%list.
Proof.
  induction req_iter as [ | val rest IH ]; intros vals w.
  - cbn. rewrite app_nil_r. reflexivity.
  - cbn [StatsServicer.collect map].
    unfold bind at 1. unfold log_req, emit.
    rewrite IH, <- app_assoc. reflexivity.
Qed.

(** With at least one sample nothing aborts: the reply carries what
    [statistics.mean] returns, and what [statistics.variance] returns when
    there are two samples or more, the literal [0.0] when there is one. *)
Lemma DescriptiveStats_reply (val : pb.SampleValue) (rest : list pb.SampleValue)
    (m s2 : float) (w : list Event) :
  let vals := map pb.v (val :: rest) in
  st_mean vals = inr m ->
  (rest <> [] -> st_variance vals = inr s2) ->
  fst (DescriptiveStats (val :: rest) w)
  = Returned (pb.mkStatsReply m (match rest with [] => 0%float | _ => s2 end)).
Proof.
  intros vals Hm Hs2. unfold StatsServicer.DescriptiveStats.
  unfold bind at 1.
  pose proof (collect_values (val :: rest) [] w) as Hc.
  destruct (collect (val :: rest) [] w) as [o w1].
  cbn [fst] in Hc. subst o. cbn [app]. fold vals.
  destruct rest as [ | val' rest ].
  - subst vals. cbn [map length] in *.
    change (1 <? Z.of_nat 1) with false. cbn [when].
    unfold bind, ret, lift. rewrite Hm. reflexivity.
  - assert (Hlen : (1 <? Z.of_nat (length vals)) = true).
    { subst vals. cbn [map length]. apply Z.ltb_lt. lia. }
    rewrite Hlen, Hm, Hs2 by discriminate.
    subst vals. reflexivity.
Qed.

(** C7: when the caller ends the request stream without having sent a sample,
    DescriptiveStats fails with INVALID_ARGUMENT and the call delivers no
    reply. *)
Theorem DescriptiveStats_empty_aborts (w : list Event) :
  serve_unary (DescriptiveStats []) w
  = (None, Failed INVALID_ARGUMENT "No values supplied",
     (w ++ [Printed (mkLogLine RED "Stats/Reply" "ERROR: no data")])%list).
Proof.
  unfold serve_unary, StatsServicer.DescriptiveStats.
  cbn [StatsServicer.collect]. rewrite bind_ret_l. cbn [when].
  rewrite bind_assoc. unfold log_rep, emit, bind at 1.
  rewrite bind_abort. reflexivity.
Qed.

End DescriptiveStatsFacts.

(** ** DescriptiveStats on one sample or more *)

Section DescriptiveStatsRuns.

Variables st_mean st_variance : list float -> PyException + float.
Variables float_str float_3f : float -> string.

Local Abbreviation collect := (StatsServicer.collect float_str).
Local Abbreviation DescriptiveStats :=
  (StatsServicer.DescriptiveStats st_mean st_variance float_str float_3f).

(** The line the loop prints for a sample. *)
Local Abbreviation value_line val :=
  (Printed (mkLogLine BLUE "Stats/Value" (float_str (pb.v val)))).

(** The loop over the request stream, with its trace: one blue line per
    sample, in the order of arrival. *)
Lemma collect_run (req_iter : list pb.SampleValue) :
  forall (vals : list float) (w : list Event),
    collect req_iter vals w
    = (Returned (vals ++ map pb.v req_iter)%list,
       (w ++ map (fun val => value_line val) req_iter)%list).
Proof.
  induction req_iter as [ | val rest IH ]; intros vals w.
  - cbn. rewrite !app_nil_r. reflexivity.
  - cbn [StatsServicer.collect map].
    unfold bind at 1. unfold log_req, emit.
    rewrite IH, <- !app_assoc. reflexivity.
Qed.

(** What the handler does once the samples are in, when there is at least
    one. *)
Lemma DescriptiveStats_nonempty (val : pb.SampleValue)
    (rest : list pb.SampleValue) (w : list Event) :
  let vals := map pb.v (val :: rest) in
  DescriptiveStats (val :: rest) w
  = (mean <- lift (st_mean vals) ;;
     var <- (if 1 <? Z.of_nat (length vals)
             then lift (st_variance vals) else ret 0%float) ;;
     log_rep "Stats/Reply"
       ("mean=" ++ float_3f mean ++ " var=" ++ float_3f var) true ;;
     ret (pb.mkStatsReply mean var))
      (w ++ map (fun val => value_line val) (val :: rest))%list.
Proof.
  intros vals. unfold StatsServicer.DescriptiveStats.
  unfold bind at 1. rewrite collect_run. cbn [app]. fold vals.
  subst vals. cbn [map when]. rewrite bind_ret_l. reflexivity.
Qed.

(** X14: A single sample: the reply carries the mean the library returns and the
    variance 0.0, and [statistics.variance] is not consulted at all (it may
    be anything, also a function that raises).  The console gets the sample's
    line and the reply's. *)
Theorem DescriptiveStats_single_sample (val : pb.SampleValue) (m : float)
    (w : list Event) (Hmean : st_mean [pb.v val] = inr m) :
  serve_unary (DescriptiveStats [val]) w
  = (Some (pb.mkStatsReply m 0%float), Completed,
     (w ++ [value_line val;
            Printed (mkLogLine GREEN "Stats/Reply"
                       ("mean=" ++ float_3f m ++ " var=" ++ float_3f 0%float))])%list).
Proof.
  unfold serve_unary. rewrite DescriptiveStats_nonempty.
  cbn [map length]. change (1 <? Z.of_nat 1) with false.
  rewrite Hmean. run_handler. rewrite <- app_assoc. reflexivity.
Qed.

(** X15: Two samples or more: the reply carries exactly what [statistics.mean]
    and [statistics.variance] return on the samples in their order of
    arrival. *)
Theorem DescriptiveStats_several_samples (val1 val2 : pb.SampleValue)
    (rest : list pb.SampleValue) (m s2 : float) (w : list Event)
    (Hmean : st_mean (map pb.v (val1 :: val2 :: rest)) = inr m)
    (Hvar : st_variance (map pb.v (val1 :: val2 :: rest)) = inr s2) :
  exists w',
    serve_unary (DescriptiveStats (val1 :: val2 :: rest)) w
    = (Some (pb.mkStatsReply m s2), Completed, w').
Proof.
  unfold serve_unary. rewrite DescriptiveStats_nonempty.
  replace (1 <? Z.of_nat (length (map pb.v (val1 :: val2 :: rest)))) with true
    by (symmetry; apply Z.ltb_lt; cbn [map length]; lia).
  rewrite Hmean, Hvar. run_handler. eexists. reflexivity.
Qed.

(** X16: The handler catches nothing: an exception of [statistics.mean], or of
    [statistics.variance] on two samples or more, ends the call without a
    reply and without an abort, and after the samples' lines nothing more is
    printed. *)
Theorem DescriptiveStats_exception_escapes (val : pb.SampleValue)
    (rest : list pb.SampleValue) (e : PyException) (w : list Event)
    (Hraise : st_mean (map pb.v (val :: rest)) = inl e \/
              (rest <> [] /\
               (exists m, st_mean (map pb.v (val :: rest)) = inr m) /\
               st_variance (map pb.v (val :: rest)) = inl e)) :
  serve_unary (DescriptiveStats (val :: rest)) w
  = (None, Crashed e,
     (w ++ map (fun val => value_line val) (val :: rest))%list).
Proof.
  unfold serve_unary. rewrite DescriptiveStats_nonempty.
  destruct Hraise as [Hmean | [Hrest [[m Hmean] Hvar]]].
  - rewrite Hmean. reflexivity.
  - replace (1 <? Z.of_nat (length (map pb.v (val :: rest)))) with true
      by (symmetry; apply Z.ltb_lt; destruct rest; [contradiction | ];
          cbn [map length]; lia).
    rewrite Hmean, Hvar. reflexivity.
Qed.

End DescriptiveStatsRuns.

Lemma DescriptiveStats_single_sample_witness :
  serve_unary
    (StatsServicer.DescriptiveStats
       (fun vals => inr (hd 0%float vals)) (fun _ => inl StatisticsError)
       (fun _ => "v") (fun _ => "f") [pb.mkSampleValue 7%float]) []
  = (Some (pb.mkStatsReply 7%float 0%float), Completed,
     ([] ++ [Printed (mkLogLine BLUE "Stats/Value" "v");
             Printed (mkLogLine GREEN "Stats/Reply"
                        ("mean=" ++ "f" ++ " var=" ++ "f"))])%list).
Proof.
  apply (DescriptiveStats_single_sample
           (fun vals => inr (hd 0%float vals)) (fun _ => inl StatisticsError)
           (fun _ => "v") (fun _ => "f") (pb.mkSampleValue 7%float) 7%float []).
  reflexivity.
Defined.

Lemma DescriptiveStats_several_samples_witness :
  exists w',
    serve_unary
      (StatsServicer.DescriptiveStats
         (fun vals => inr (hd 0%float vals)) (fun vals => inr (last vals 0%float))
         (fun _ => "v") (fun _ => "f")
         [pb.mkSampleValue 2%float; pb.mkSampleValue 4%float]) []
    = (Some (pb.mkStatsReply 2%float 4%float), Completed, w').
Proof.
  apply (DescriptiveStats_several_samples
           (fun vals => inr (hd 0%float vals)) (fun vals => inr (last vals 0%float))
           (fun _ => "v") (fun _ => "f")
           (pb.mkSampleValue 2%float) (pb.mkSampleValue 4%float) []
           2%float 4%float []); reflexivity.
Defined.

Lemma DescriptiveStats_exception_escapes_witness :
  serve_unary
    (StatsServicer.DescriptiveStats
       (fun vals => inr (hd 0%float vals)) (fun _ => inl OverflowError)
       (fun _ => "v") (fun _ => "f")
       [pb.mkSampleValue 2%float; pb.mkSampleValue 4%float]) []
  = (None, Crashed OverflowError,
     ([] ++ map (fun val => Printed (mkLogLine BLUE "Stats/Value" "v"))
                [pb.mkSampleValue 2%float; pb.mkSampleValue 4%float])%list).
Proof.
  apply (DescriptiveStats_exception_escapes
           (fun vals => inr (hd 0%float vals)) (fun _ => inl OverflowError)
           (fun _ => "v") (fun _ => "f")
           (pb.mkSampleValue 2%float) [pb.mkSampleValue 4%float]
           OverflowError []).
  right. split; [discriminate | split; [eexists; reflexivity | reflexivity] ].
Defined.

(** ** DescriptiveStats with the library's arithmetic *)

Lemma Qsum_cons (q : Q) (qs : list Q) :
  statistics.Qsum (q :: qs) = (q + statistics.Qsum qs)%Q.
Proof. reflexivity. Qed.

(** The sum of the squared deviations from any centre [c], expanded. *)
Lemma Qsum_squared_deviations (c : Q) (qs : list Q) :
  (statistics.Qsum (map (fun q => (q - c) * (q - c)) qs)
   == statistics.Qsum (map (fun q => q * q) qs)
      - 2 * c * statistics.Qsum qs
      + inject_Z (Z.of_nat (length qs)) * c * c)%Q.
Proof.
  induction qs as [ | q qs IH ].
  - cbn. ring.
  - cbn [map length]. rewrite !Qsum_cons, IH.
    rewrite Nat2Z.inj_succ. unfold Z.succ. rewrite inject_Z_plus. ring.
Qed.

Lemma inject_Z_nonzero (z : Z) : z <> 0 -> ~ (inject_Z z == 0)%Q.
Proof.
  intros Hz H. apply Hz. unfold Qeq in H. cbn in H. lia.
Qed.

(** The quantity the library computes for the variance is the sample
    variance of the textbook. *)
Lemma variance_formula (qs : list Q) :
  (2 <= length qs)%nat ->
  let n := Z.of_nat (length qs) in
  let sx := statistics.Qsum qs in
  let sxx := statistics.Qsum (map (fun q => q * q)%Q qs) in
  ((inject_Z n * sxx - sx * sx) / inject_Z n / inject_Z (n - 1)
   == Qvariance qs)%Q.
Proof.
  intros Hlen n sx sxx. unfold Qvariance, Qmean.
  rewrite Qsum_squared_deviations. fold n sx sxx.
  pose proof (inject_Z_nonzero n ltac:(lia)) as Hn.
  pose proof (inject_Z_nonzero (n - 1) ltac:(lia)) as Hn1.
  field. split; assumption.
Qed.

(** The rounding of a fraction depends on its value only. *)
Lemma float_of_Fraction_Qeq (p q : Q) :
  (p == q)%Q -> statistics.float_of_Fraction p = statistics.float_of_Fraction q.
Proof.
  intros H. unfold statistics.float_of_Fraction.
  rewrite (Qred_complete p q H). reflexivity.
Qed.

Lemma exact_ratios_length (data : list float) :
  forall qs, statistics.exact_ratios data = Some qs -> length qs = length data.
Proof.
  induction data as [ | x data IH ]; intros qs H; cbn [statistics.exact_ratios] in H.
  - injection H as <-. reflexivity.
  - destruct (statistics.exact_ratio x) as [q | ]; [ | discriminate].
    destruct (statistics.exact_ratios data) as [qs' | ]; [ | discriminate].
    injection H as <-. cbn [length]. rewrite (IH qs' eq_refl). reflexivity.
Qed.

(** On finite samples [statistics.mean] rounds their arithmetic mean. *)
Lemma mean_finite (data : list float) (qs : list Q) :
  data <> [] -> statistics.exact_ratios data = Some qs ->
  statistics.mean data = statistics.float_of_Fraction (Qmean qs).
Proof.
  intros Hne Hqs. unfold statistics.mean, Qmean.
  rewrite Hqs, (exact_ratios_length data qs Hqs).
  replace (Z.of_nat (length data) <? 1) with false; [reflexivity | ].
  symmetry. apply Z.ltb_ge. destruct data; [contradiction | cbn [length]; lia].
Qed.

(** On two finite samples or more [statistics.variance] rounds their sample
    variance. *)
Lemma variance_finite (data : list float) (qs : list Q) :
  (2 <= length data)%nat -> statistics.exact_ratios data = Some qs ->
  statistics.variance data = statistics.float_of_Fraction (Qvariance qs).
Proof.
  intros Hlen Hqs. unfold statistics.variance.
  pose proof (exact_ratios_length data qs Hqs) as Hl.
  rewrite Hqs. replace (Z.of_nat (length data) <? 2) with false
    by (symmetry; apply Z.ltb_ge; lia).
  apply float_of_Fraction_Qeq. rewrite <- Hl.
  apply variance_formula. lia.
Qed.

(** When [statistics.variance] raises on two samples or more, so does the
    handler. *)
Lemma DescriptiveStats_variance_raises
    (st_mean st_variance : list float -> PyException + float)
    (float_str float_3f : float -> string)
    (val1 val2 : pb.SampleValue) (rest : list pb.SampleValue)
    (m : float) (e : PyException) (w : list Event) :
  st_mean (map pb.v (val1 :: val2 :: rest)) = inr m ->
  st_variance (map pb.v (val1 :: val2 :: rest)) = inl e ->
  fst (StatsServicer.DescriptiveStats st_mean st_variance float_str float_3f
         (val1 :: val2 :: rest) w)
  = Raised e.
Proof.
  intros Hmean Hvar. rewrite DescriptiveStats_nonempty.
  replace (1 <? Z.of_nat (length (map pb.v (val1 :: val2 :: rest)))) with true
    by (symmetry; apply Z.ltb_lt; cbn [map length]; lia).
  rewrite Hmean, Hvar. reflexivity.
Qed.

(** C6 as the specification words it fails: not every non-empty sequence of
    samples gets a reply.  On the two samples 1e308 and -1e308 the mean is 0
    and the sample variance is beyond every double: [statistics.variance]
    raises [OverflowError], which nothing catches, and the call ends without
    a reply. *)
Lemma DescriptiveStats_overflow_counterexample :
  ~ exists float_str float_3f reply w',
      serve_unary
        (StatsServicer.DescriptiveStats statistics.mean statistics.variance
           float_str float_3f overflowing_samples) []
      = (Some reply, Completed, w').
Proof.
  intros [float_str [float_3f [reply [w' E]]]].
  assert (H : fst (StatsServicer.DescriptiveStats statistics.mean
                     statistics.variance float_str float_3f
                     overflowing_samples [])
              = Raised OverflowError).
  { unfold overflowing_samples.
    apply (DescriptiveStats_variance_raises statistics.mean
             statistics.variance float_str float_3f _ _ [] 0%float).
    - vm_compute. reflexivity.
    - vm_compute. reflexivity. }
  unfold serve_unary in E.
  destruct (StatsServicer.DescriptiveStats statistics.mean
              statistics.variance float_str float_3f
              overflowing_samples []) as [o w1].
  cbn [fst] in H. subst o. discriminate.
Qed.

(** C6, amended: for every non-empty finite sequence of finite samples whose
    mean and, when there are two or more, whose sample variance round to a
    double, DescriptiveStats returns exactly one reply; its mean is the
    arithmetic mean of all the samples received, rounded to the nearest
    double; its variance is their sample variance, of denominator count-1,
    rounded to the nearest double when count > 1 and exactly 0.0 when
    count = 1. *)
Theorem DescriptiveStats_mean_variance (float_str float_3f : float -> string)
    (val : pb.SampleValue) (rest : list pb.SampleValue) (qs : list Q)
    (m s2 : float) (w : list Event)
    (Hfinite : statistics.exact_ratios (map pb.v (val :: rest)) = Some qs)
    (Hmean : statistics.float_of_Fraction (Qmean qs) = inr m)
    (Hvar : rest <> [] ->
            statistics.float_of_Fraction (Qvariance qs) = inr s2) :
  exists w',
    serve_unary
      (StatsServicer.DescriptiveStats statistics.mean statistics.variance
         float_str float_3f (val :: rest)) w
    = (Some (pb.mkStatsReply m (match rest with [] => 0%float | _ => s2 end)),
       Completed, w').
Proof.
  pose proof (DescriptiveStats_reply statistics.mean statistics.variance
                float_str float_3f val rest m s2 w) as H.
  cbv zeta in H.
  unfold serve_unary.
  destruct (StatsServicer.DescriptiveStats statistics.mean statistics.variance
              float_str float_3f (val :: rest) w) as [o w'].
  cbn [fst] in H. rewrite H.
  - eexists. reflexivity.
  - rewrite (mean_finite _ qs); [exact Hmean | discriminate | exact Hfinite].
  - intros Hrest. rewrite (variance_finite _ qs);
      [exact (Hvar Hrest) | | exact Hfinite].
    destruct rest; [contradiction | cbn [map length]; lia].
Qed.

Lemma DescriptiveStats_mean_variance_witness :
  exists w',
    serve_unary
      (StatsServicer.DescriptiveStats statistics.mean statistics.variance
         (fun _ => "v") (fun _ => "f") example_samples) []
    = (Some (pb.mkStatsReply 5%float (32 / 7)%float), Completed, w').
Proof.
  unfold example_samples.
  refine (DescriptiveStats_mean_variance (fun _ => "v") (fun _ => "f")
            _ _ _ 5%float (32 / 7)%float [] _ _ _).
  - vm_compute. reflexivity.
  - vm_compute. reflexivity.
  - intros _. vm_compute. reflexivity.
Defined.

(** The specification's single sample: the mean is the sample and the
    variance is 0.0. *)
Example DescriptiveStats_single_7 :
  fst (StatsServicer.DescriptiveStats statistics.mean statistics.variance
         (fun _ => "v") (fun _ => "f") [pb.mkSampleValue 7%float] [])
  = Returned (pb.mkStatsReply 7%float 0%float).
Proof. vm_compute. reflexivity. Qed.

(** * The logging helper [_parse_peer] *)

Lemma split_last_None (c : ascii) (s : string) :
  split_last c s = None <-> mem c s = false.
Proof.
  induction s as [ | a s IH ]; cbn [split_last mem].
  - tauto.
  - destruct (split_last c s) as [[l r] | ].
    + destruct (mem c s).
      * rewrite orb_true_r. split; discriminate.
      * destruct IH as [_ IH]. specialize (IH eq_refl). discriminate.
    + destruct IH as [IH _].
      rewrite (IH eq_refl), orb_false_r, (Ascii.eqb_sym c a).
      destruct (Ascii.eqb a c); split; intros; try discriminate; reflexivity.
Qed.

(** What [rsplit] returns are the two sides of a colon, and the right side
    has none. *)
Lemma split_last_Some (c : ascii) (s l r : string) :
  split_last c s = Some (l, r) -> s = l ++ String c r /\ mem c r = false.
Proof.
  revert l r. induction s as [ | a s IH ]; intros l r; cbn [split_last].
  - discriminate.
  - destruct (split_last c s) as [[l' r'] | ] eqn:E.
    + intros H. injection H as <- <-.
      destruct (IH l' r' eq_refl) as [-> Hr]. split; [reflexivity | exact Hr].
    + destruct (Ascii.eqb_spec a c) as [-> | Hne]; [ | discriminate].
      intros H. injection H as <- <-.
      split; [reflexivity | apply split_last_None; exact E].
Qed.

(** [rsplit] cuts at the last colon: a right side without colon is found
    again whatever the left side holds. *)
Lemma split_last_app (c : ascii) (l r : string) :
  mem c r = false -> split_last c (l ++ String c r) = Some (l, r).
Proof.
  intros Hr. induction l as [ | a l IH ].
  - cbn [append split_last]. apply split_last_None in Hr. rewrite Hr.
    rewrite Ascii.eqb_refl. reflexivity.
  - cbn [append split_last]. rewrite IH. reflexivity.
Qed.

Lemma mem_app (c : ascii) (s t : string) :
  mem c (s ++ t) = mem c s || mem c t.
Proof.
  induction s as [ | a s IH ]; cbn [append mem].
  - reflexivity.
  - rewrite IH, orb_assoc. reflexivity.
Qed.

Lemma lstrip_length (chars s : string) :
  (String.length (lstrip chars s) <= String.length s)%nat.
Proof.
  induction s as [ | a s IH ]; cbn [lstrip String.length]; [lia | ].
  destruct (mem a chars); cbn [String.length]; lia.
Qed.

Lemma lstrip_idempotent (chars s : string) :
  lstrip chars (lstrip chars s) = lstrip chars s.
Proof.
  induction s as [ | a s IH ]; cbn [lstrip].
  - reflexivity.
  - destruct (mem a chars) eqn:E; [exact IH | ].
    cbn [lstrip]. rewrite E. reflexivity.
Qed.

Lemma rstrip_idempotent (chars s : string) :
  rstrip chars (rstrip chars s) = rstrip chars s.
Proof.
  induction s as [ | a s IH ]; cbn [rstrip].
  - reflexivity.
  - destruct (rstrip chars s) as [ | b r ] eqn:E.
    + destruct (mem a chars) eqn:Ea; cbn [rstrip]; rewrite ?Ea; reflexivity.
    + cbn [rstrip]. cbn [rstrip] in IH. rewrite IH. reflexivity.
Qed.

(** Stripping on the right leaves alone a left end that needs no
    stripping. *)
Lemma lstrip_rstrip (chars s : string) :
  lstrip chars s = s -> lstrip chars (rstrip chars s) = rstrip chars s.
Proof.
  destruct s as [ | a s ]; [reflexivity | ].
  cbn [lstrip]. destruct (mem a chars) eqn:Ea.
  - intros H. exfalso.
    pose proof (lstrip_length chars s) as Hs. rewrite H in Hs. cbn [String.length] in Hs. lia.
  - intros _. cbn [rstrip].
    destruct (rstrip chars s); rewrite ?Ea; cbn [lstrip]; rewrite Ea; reflexivity.
Qed.

Lemma rstrip_app_stripped (chars s : string) (c : ascii) :
  mem c chars = true -> rstrip chars (s ++ String c "") = rstrip chars s.
Proof.
  intros Hc. induction s as [ | a s IH ].
  - cbn [append rstrip]. rewrite Hc. reflexivity.
  - cbn [append rstrip]. rewrite IH. reflexivity.
Qed.

(** An address in brackets comes out without them. *)
Lemma strip_brackets (host : string) :
  lstrip "[]" host = host -> rstrip "[]" host = host ->
  strip "[]" ("[" ++ host ++ "]") = host.
Proof.
  intros Hl Hr. unfold strip. change ("[" ++ host ++ "]") with (String "[" (host ++ "]")).
  cbn [lstrip mem Ascii.eqb Bool.eqb orb andb].
  destruct host as [ | a host ]; [reflexivity | ].
  cbn [append lstrip]. cbn [lstrip] in Hl.
  destruct (mem a "[]") eqn:Ea.
  - exfalso.
    pose proof (lstrip_length "[]" host) as Hs. rewrite Hl in Hs. cbn [String.length] in Hs. lia.
  - change (String a (host ++ "]")) with (String a host ++ "]").
    rewrite rstrip_app_stripped by reflexivity. exact Hr.
Qed.

Lemma has_scheme_ipv4 (rest : string) : has_scheme ("ipv4:" ++ rest) = true.
Proof. unfold has_scheme. destruct rest; reflexivity. Qed.

Lemma has_scheme_ipv6 (rest : string) : has_scheme ("ipv6:" ++ rest) = true.
Proof. unfold has_scheme. destruct rest; reflexivity. Qed.

(** With a scheme in front, [_parse_peer] splits what follows it at the last
    colon. *)
Lemma parse_peer_scheme (rest : string) :
  _parse_peer ("ipv4:" ++ rest)
  = match split_last ":" rest with
    | Some (ip, port) => Some (strip "[]" ip, port)
    | None => None
    end /\
  _parse_peer ("ipv6:" ++ rest)
  = match split_last ":" rest with
    | Some (ip, port) => Some (strip "[]" ip, port)
    | None => None
    end.
Proof.
  unfold _parse_peer. rewrite has_scheme_ipv4, has_scheme_ipv6.
  split; reflexivity.
Qed.

Lemma string_app_assoc (s t u : string) : (s ++ t) ++ u = s ++ t ++ u.
Proof.
  induction s as [ | a s IH ]; cbn [append]; [reflexivity | ].
  rewrite IH. reflexivity.
Qed.

Lemma split_first_Some (c : ascii) (s l r : string) :
  split_first c s = Some (l, r) -> s = l ++ String c r.
Proof.
  revert l. induction s as [ | a s IH ]; intros l; cbn [split_first].
  - discriminate.
  - destruct (Ascii.eqb_spec a c) as [-> | Hne].
    + intros H. injection H as <- <-. reflexivity.
    + destruct (split_first c s) as [[l' r'] | ]; [ | discriminate].
      intros H. injection H as <- <-. rewrite (IH l' eq_refl). reflexivity.
Qed.

Lemma strip_stripped (chars s : string) :
  lstrip chars (strip chars s) = strip chars s /\
  rstrip chars (strip chars s) = strip chars s.
Proof.
  unfold strip. split.
  - apply lstrip_rstrip, lstrip_idempotent.
  - apply rstrip_idempotent.
Qed.

(** X17: The addresses the runtime reports for TCP callers are parsed back into
    their parts: "ipv4:host:port" and "ipv6:[host]:port" both give
    (host, port), for any port without a colon and any host that neither
    starts nor ends with a bracket.  The host may hold colons, as IPv6
    addresses do. *)
Theorem parse_peer_of_address (host port : string)
    (Hport : no_colon port)
    (Hl : lstrip "[]" host = host) (Hr : rstrip "[]" host = host) :
  _parse_peer ("ipv4:" ++ host ++ ":" ++ port) = Some (host, port) /\
  _parse_peer ("ipv6:[" ++ host ++ "]:" ++ port) = Some (host, port).
Proof.
  split.
  - rewrite (proj1 (parse_peer_scheme _)).
    change (":" ++ port) with (String ":" port).
    rewrite (split_last_app ":" host port Hport).
    unfold strip. rewrite Hl, Hr. reflexivity.
  - change ("ipv6:[" ++ host ++ "]:" ++ port)
      with ("ipv6:" ++ "[" ++ host ++ "]" ++ String ":" port).
    rewrite <- (string_app_assoc host "]" (String ":" port)).
    change ("[" ++ (host ++ "]") ++ String ":" port)
      with (("[" ++ host ++ "]") ++ String ":" port).
    rewrite (proj2 (parse_peer_scheme _)).
    rewrite (split_last_app ":" ("[" ++ host ++ "]") port Hport).
    rewrite (strip_brackets host Hl Hr). reflexivity.
Qed.

Lemma parse_peer_of_address_witness :
  _parse_peer ("ipv4:" ++ "127.0.0.1" ++ ":" ++ "54321")
  = Some ("127.0.0.1", "54321") /\
  _parse_peer ("ipv6:[" ++ "::1" ++ "]:" ++ "54321") = Some ("::1", "54321").
Proof.
  split.
  - apply (parse_peer_of_address "127.0.0.1" "54321"); reflexivity.
  - apply (parse_peer_of_address "::1" "54321"); reflexivity.
Defined.

(** X18: When [_parse_peer] raises.  A peer without a scheme is refused exactly
    when it has no colon; a peer with the scheme "ipv4:" or "ipv6:" is
    refused exactly when nothing after the scheme has a colon, so
    "ipv4:localhost" is refused although it has one. *)
Theorem parse_peer_raises (peer : string) :
  (has_scheme peer = false -> (_parse_peer peer = None <-> no_colon peer)) /\
  (_parse_peer ("ipv4:" ++ peer) = None <-> no_colon peer) /\
  (_parse_peer ("ipv6:" ++ peer) = None <-> no_colon peer).
Proof.
  assert (H : match split_last ":" peer with
              | Some (ip, port) => Some (strip "[]" ip, port)
              | None => None
              end = None <-> no_colon peer).
  { unfold no_colon. rewrite <- split_last_None.
    destruct (split_last ":" peer) as [[ip port] | ]; split;
      intros; try discriminate; reflexivity. }
  split; [ | split ].
  - intros Hs. unfold _parse_peer. rewrite Hs. exact H.
  - rewrite (proj1 (parse_peer_scheme peer)). exact H.
  - rewrite (proj2 (parse_peer_scheme peer)). exact H.
Qed.

Lemma parse_peer_raises_witness :
  (_parse_peer "localhost" = None <-> no_colon "localhost") /\
  (_parse_peer ("ipv4:" ++ "localhost") = None <-> no_colon "localhost") /\
  (_parse_peer ("ipv6:" ++ "localhost") = None <-> no_colon "localhost").
Proof.
  destruct (parse_peer_raises "localhost") as [H1 H23].
  split; [apply H1; reflexivity | exact H23].
Defined.

(** X19: What [_parse_peer] returns: the port is what follows the last colon of
    the peer and holds no colon itself, and the address has no bracket at
    either end. *)
Theorem parse_peer_result (peer ip port : string)
    (Hparse : _parse_peer peer = Some (ip, port)) :
  no_colon port /\
  lstrip "[]" ip = ip /\ rstrip "[]" ip = ip /\
  exists front, peer = front ++ ":" ++ port.
Proof.
  unfold _parse_peer in Hparse.
  assert (Hcut : forall s front,
             peer = front ++ s ->
             match split_last ":" s with
             | Some (ip, port) => Some (strip "[]" ip, port)
             | None => None
             end = Some (ip, port) ->
             no_colon port /\ lstrip "[]" ip = ip /\ rstrip "[]" ip = ip /\
             exists front, peer = front ++ ":" ++ port).
  { intros s front Hpeer Hs.
    destruct (split_last ":" s) as [[ip0 port0] | ] eqn:E; [ | discriminate].
    injection Hs as <- <-.
    destruct (split_last_Some ":" s ip0 port0 E) as [-> Hnc].
    destruct (strip_stripped "[]" ip0) as [Hl Hr].
    repeat split; try assumption.
    exists (front ++ ip0). rewrite Hpeer, string_app_assoc. reflexivity. }
  destruct (has_scheme peer).
  - destruct (split_first ":" peer) as [[scheme rest] | ] eqn:E; [ | discriminate].
    apply (Hcut rest (scheme ++ ":")); [ | exact Hparse].
    rewrite (split_first_Some ":" peer scheme rest E), string_app_assoc.
    reflexivity.
  - apply (Hcut peer ""); [reflexivity | exact Hparse].
Qed.

Lemma parse_peer_result_witness :
  no_colon "54321" /\
  lstrip "[]" "::1" = "::1" /\ rstrip "[]" "::1" = "::1" /\
  exists front, "ipv6:[::1]:54321" = front ++ ":" ++ "54321".
Proof.
  apply (parse_peer_result "ipv6:[::1]:54321" "::1" "54321"). reflexivity.
Defined.

(** * The interactive client: [ask_int] *)

Section ask_int_facts.

Variable int : string -> option Z.

Local Abbreviation refused := (fun line : string => int line = None).

(** What the loop prints for the lines it refuses: the prompt and the
    complaint, once per line. *)
Local Abbreviation retries prompt bad :=
  (flat_map (fun _ : string => [prompt; "  Please enter a valid integer."]) bad).

Lemma ask_int_skips (prompt : string) (bad : list string) :
  forall (stdin stdout : list string),
    Forall refused bad ->
    client.ask_int int prompt (bad ++ stdin) stdout
    = client.ask_int int prompt stdin (stdout ++ retries prompt bad)%list.
Proof.
  induction bad as [ | line bad IH ]; intros stdin stdout Hbad.
  - cbn. rewrite app_nil_r. reflexivity.
  - inversion Hbad as [ | ? ? Hline Hbad' ]; subst.
    cbn [app client.ask_int flat_map]. rewrite Hline.
    rewrite (IH stdin _ Hbad'), <- app_assoc. reflexivity.
Qed.

(** X20: [ask_int] returns the first line that reads as an integer.  Whatever the
    user typed before it is refused line by line, each refusal answered with
    the complaint and a new prompt, and nothing after the accepted line is
    read. *)
Theorem ask_int_first_valid (prompt line : string) (bad rest : list string)
    (z : Z) (stdout : list string)
    (Hbad : Forall refused bad) (Hline : int line = Some z) :
  client.ask_int int prompt (bad ++ line :: rest) stdout
  = (Some z, rest, (stdout ++ retries prompt bad ++ [prompt])%list).
Proof.
  rewrite (ask_int_skips prompt bad _ _ Hbad).
  cbn [client.ask_int]. rewrite Hline, <- app_assoc. reflexivity.
Qed.

(** X21: When no line reads as an integer the loop does not end by itself: it
    refuses every line and dies of the [EOFError] of the last [input], the
    prompt printed once more. *)
Theorem ask_int_end_of_input (prompt : string) (stdin stdout : list string)
    (Hbad : Forall refused stdin) :
  client.ask_int int prompt stdin stdout
  = (None, [], (stdout ++ retries prompt stdin ++ [prompt])%list).
Proof.
  rewrite <- (app_nil_r stdin) at 1.
  rewrite (ask_int_skips prompt stdin _ _ Hbad).
  cbn [client.ask_int]. rewrite <- app_assoc. reflexivity.
Qed.

(** X22: An integer [ask_int] returns is always the reading of a line the user
    typed, the first that [int] accepts. *)
Theorem ask_int_result (prompt : string) (stdin stdout rest out : list string)
    (z : Z)
    (Hrun : client.ask_int int prompt stdin stdout = (Some z, rest, out)) :
  exists bad line,
    stdin = (bad ++ line :: rest)%list /\
    Forall refused bad /\ int line = Some z.
Proof.
  revert stdout Hrun. induction stdin as [ | line stdin IH ];
    intros stdout Hrun; cbn [client.ask_int] in Hrun.
  - discriminate.
  - destruct (int line) as [z' | ] eqn:Eline.
    + injection Hrun as -> -> _. exists [], line.
      split; [reflexivity | split; [constructor | exact Eline] ].
    + destruct (IH _ Hrun) as [bad [line' [-> [Hbad Hline']]]].
      exists (line :: bad), line'.
      split; [reflexivity | split; [constructor; assumption | exact Hline'] ].
Qed.

End ask_int_facts.

Lemma ask_int_first_valid_witness :
  client.ask_int example_int "  x = " (["seven"; ""] ++ "42" :: ["7"]) []
  = (Some 42, ["7"],
     ([] ++ flat_map (fun _ : string =>
                        ["  x = "; "  Please enter a valid integer."])
              ["seven"; ""] ++ ["  x = "])%list).
Proof.
  apply (ask_int_first_valid example_int "  x = " "42" ["seven"; ""] ["7"] 42 []).
  - repeat constructor.
  - reflexivity.
Defined.

Lemma ask_int_end_of_input_witness :
  client.ask_int example_int "  x = " ["seven"; ""] []
  = (None, [],
     ([] ++ flat_map (fun _ : string =>
                        ["  x = "; "  Please enter a valid integer."])
              ["seven"; ""] ++ ["  x = "])%list).
Proof.
  apply (ask_int_end_of_input example_int "  x = " ["seven"; ""] []).
  repeat constructor.
Defined.

Lemma ask_int_result_witness :
  exists bad line,
    ["seven"; "42"; "7"] = (bad ++ line :: ["7"])%list /\
    Forall (fun line : string => example_int line = None) bad /\
    example_int line = Some 42.
Proof.
  apply (ask_int_result example_int "  x = " ["seven"; "42"; "7"] [] ["7"]
           ["  x = "; "  Please enter a valid integer."; "  x = "] 42).
  reflexivity.
Defined.
